(** * HyperLogLog estimators of bustub's primer, shallow embedding.

    src/primer/hyperloglog.cpp         (dense estimator, [HyperLogLog])
    src/primer/hyperloglog_presto.cpp  (compact estimator, [HyperLogLogPresto])

    Conventions of the embedding:
    - the 64-bit hash is a [Z]; [std::bitset<64>(hash)[i]] is [Z.testbit hash i];
    - the key hash [CalculateHash] is external: [AddElem] is modelled on the
      hash value it computes;
    - register vectors are [list Z] indexed with stdpp's lookup/insert; the
      overflow [unordered_map] of the compact estimator is a [gmap nat Z];
    - double arithmetic is abstracted by the class [DoubleOps] below. *)

From Stdlib Require Import ZArith Lia QArith Qround.
From stdpp Require Import base gmap list.

Open Scope Z_scope.

(** ** Bit utilities *)

Definition bit (h i : Z) : Z := if Z.testbit h i then 1 else 0.

(** Abstract double arithmetic used by [ComputeCardinality]: [dadd] is [+=],
    [dinvpow2 v] is [1.0 / std::pow(2, v)], [dle0 s] is [s <= 0],
    [dest m s] is [static_cast<size_t>(std::floor(CONSTANT * m * m / s))];
    [dpos]/[dnonneg] are the predicates "> 0" and ">= 0" on doubles. *)
Class DoubleOps := {
  dbl : Type;
  dzero : dbl;
  dadd : dbl -> dbl -> dbl;
  dinvpow2 : Z -> dbl;
  dle0 : dbl -> bool;
  dest : Z -> dbl -> Z;
  dpos : dbl -> Prop;
  dnonneg : dbl -> Prop
}.

(** Facts of IEEE binary64 arithmetic the positivity argument relies on:
    [0.0 >= 0]; [1.0 / pow(2, v)] is positive for ranks [0 <= v <= 64];
    a non-negative double plus a positive one is positive (round to nearest
    never rounds such a sum down to 0); a positive double is not [<= 0]. *)
Class DoubleLaws `{DoubleOps} : Prop := {
  dzero_nonneg : dnonneg dzero;
  dinvpow2_pos : forall v, 0 <= v <= 64 -> dpos (dinvpow2 v);
  dadd_pos : forall s t, dnonneg s -> dpos t -> dpos (dadd s t);
  dpos_nonneg : forall s, dpos s -> dnonneg s;
  dpos_not_le0 : forall s, dpos s -> dle0 s = false
}.

(** [1 << n] on a 32-bit [int] (C++14 and later): defined for [0 <= n <= 31],
    [1 << 31] being [INT_MIN]; a shift by 32 or more is undefined ([None]). *)
Definition int_shl1 (n : Z) : option Z :=
  if (0 <=? n) && (n <? 31) then Some (2 ^ n)
  else if n =? 31 then Some (- 2 ^ 31)
  else None.

(** [max_size()] of a libstdc++ vector of 8-byte elements ([uint64_t] and
    [std::bitset<4>] alike): [PTRDIFF_MAX / 8]. *)
Definition vector_max_size : Z := 2 ^ 60 - 1.

(** [std::vector<T>(count, 0)] with an [int] count: the count converts to
    [size_t]; a count above [max_size()] throws [std::length_error] ([None]). *)
Definition vector_new (count : Z) : option (list Z) :=
  let n := count mod 2 ^ 64 in
  if n <=? vector_max_size then Some (repeat 0 (Z.to_nat n)) else None.

(** ** Dense estimator: src/primer/hyperloglog.cpp *)
Module Dense.

Record HyperLogLog := mkHLL {
  n_bits_ : Z;
  buckets_ : list Z;
  cardinality_ : Z
}.

(** [PositionOfLeftmostOne]: [for (int i = n_bits_; i < 64; i++)];
    [k] is the number of iterations left ([64 - i]). *)
Fixpoint plo_loop (p h i : Z) (k : nat) : Z :=
  match k with
  | O => 0
  | S k' => if Z.testbit h (64 - 1 - i) then i - p + 1 else plo_loop p h (i + 1) k'
  end.

Definition PositionOfLeftmostOne (p h : Z) : Z := plo_loop p h p (Z.to_nat (64 - p)).

(** [ComputeBucket]: [for (i = 0; i < n_bits_; i++) n = n + bset[63 - i] * (1 << i)].
    For the precisions a constructor accepts ([p <= 30], see [ctor]) the
    [int] arithmetic does not overflow, so it is written over [Z]. *)
Fixpoint cb_loop (h i : Z) (k : nat) (n : Z) : Z :=
  match k with
  | O => n
  | S k' => cb_loop h (i + 1) k' (n + bit h (64 - 1 - i) * Z.shiftl 1 i)
  end.

Definition ComputeBucket (p h : Z) : Z := cb_loop h 0 (Z.to_nat p) 0.

(** Constructor: [None] when construction throws or is undefined. *)
Definition ctor (n_bits : Z) : option HyperLogLog :=
  let n := if n_bits <? 0 then 0 else n_bits in
  match int_shl1 n with
  | None => None
  | Some c =>
      match vector_new c with
      | None => None
      | Some b => Some (mkHLL n b 0)
      end
  end.

(** [AddElem] on the hash [CalculateHash(val)]; the lock makes the
    read-then-write one step. *)
Definition AddElem (st : HyperLogLog) (hash : Z) : HyperLogLog :=
  let n := ComputeBucket (n_bits_ st) hash in
  let lmo := PositionOfLeftmostOne (n_bits_ st) hash in
  if lmo <=? default 0 (buckets_ st !! Z.to_nat n) then st
  else mkHLL (n_bits_ st) (<[Z.to_nat n := lmo]> (buckets_ st)) (cardinality_ st).

Section Cardinality.
Context `{DoubleOps}.

(** [for (auto &bucket : buckets_) sum += 1.0 / std::pow(2, bucket);] *)
Definition bucket_sum (b : list Z) : dbl :=
  fold_left (fun s v => dadd s (dinvpow2 v)) b dzero.

Definition ComputeCardinality (st : HyperLogLog) : HyperLogLog :=
  let sum := bucket_sum (buckets_ st) in
  let m := Z.of_nat (length (buckets_ st)) in
  if dle0 sum then st
  else
    let cardinality := dest m sum in
    if cardinality <=? cardinality_ st then st
    else mkHLL (n_bits_ st) (buckets_ st) cardinality.

End Cardinality.

End Dense.

(** ** Compact estimator: src/primer/hyperloglog_presto.cpp *)
Module Presto.

(** Modelled from the spec: the field widths are declared in
    primer/hyperloglog_presto.h, which is not part of the sources. The dense
    field is 4 bits wide (spec 3 and 4.3; the source masks with [0x0F]);
    the overflow field is [std::bitset<ow>] of a width [ow] the spec leaves
    open ("overflow_width"), so every definition below takes it as [ow].
    The overflow map [unordered_map] is a [gmap] from register index. *)
Definition DENSE_BUCKET_SIZE : Z := 4.

Record HyperLogLogPresto := mkP {
  n_leading_bits_ : Z;
  dense_bucket_ : list Z;
  overflow_bucket_ : gmap nat Z;
  cardinality_ : Z
}.

Definition ctor (n_leading_bits : Z) : option HyperLogLogPresto :=
  let n := if n_leading_bits <? 0 then 0 else n_leading_bits in
  match int_shl1 n with
  | None => None
  | Some c =>
      match vector_new c with
      | None => None
      | Some b => Some (mkP n b empty 0)
      end
  end.

(** [ComputeBucketIndex]: [for (j = 0; j < n_leading_bits_; j++) ret += bset[63 - j] * (1 << j)]. *)
Fixpoint cbi_loop (h j : Z) (k : nat) (ret : Z) : Z :=
  match k with
  | O => ret
  | S k' => cbi_loop h (j + 1) k' (ret + bit h (63 - j) * Z.shiftl 1 j)
  end.

Definition ComputeBucketIndex (p h : Z) : Z := cbi_loop h 0 (Z.to_nat p) 0.

(** [PositionOfRightMostOne]: [for (i = 0; i < 64 - n_leading_bits_; i++)];
    [k] is the number of iterations left. *)
Fixpoint prmo_loop (p h i : Z) (k : nat) : Z :=
  match k with
  | O => 64 - p
  | S k' => if Z.testbit h i then i else prmo_loop p h (i + 1) k'
  end.

Definition PositionOfRightMostOne (p h : Z) : Z := prmo_loop p h 0 (Z.to_nat (64 - p)).

Definition GetBucketValue (st : HyperLogLogPresto) (index : Z) : Z :=
  let dense := default 0 (dense_bucket_ st !! Z.to_nat index) in
  match overflow_bucket_ st !! Z.to_nat index with
  | None => dense
  | Some ov => (dense + Z.shiftl ov DENSE_BUCKET_SIZE) mod 2 ^ 64
  end.

(** [overflow_bucket_[index] = overflow] stores [std::bitset<ow>(overflow)]:
    the low [ow] bits. *)
Definition SetBucketValue (ow : Z) (st : HyperLogLogPresto) (index value : Z) : HyperLogLogPresto :=
  let dense' := <[Z.to_nat index := Z.land value 15]> (dense_bucket_ st) in
  let overflow := Z.shiftr value DENSE_BUCKET_SIZE in
  if overflow <=? 0 then mkP (n_leading_bits_ st) dense' (overflow_bucket_ st) (cardinality_ st)
  else mkP (n_leading_bits_ st) dense'
         (<[Z.to_nat index := overflow mod 2 ^ ow]> (overflow_bucket_ st)) (cardinality_ st).

Definition AddElem (ow : Z) (st : HyperLogLogPresto) (hash : Z) : HyperLogLogPresto :=
  let bucket_index := ComputeBucketIndex (n_leading_bits_ st) hash in
  let rmo := PositionOfRightMostOne (n_leading_bits_ st) hash in
  let current := GetBucketValue st bucket_index in
  if current <? rmo then SetBucketValue ow st bucket_index rmo else st.

Section Cardinality.
Context `{DoubleOps}.

Definition CalBucketSum (st : HyperLogLogPresto) : dbl :=
  fold_left (fun s i => dadd s (dinvpow2 (GetBucketValue st (Z.of_nat i))))
    (seq 0 (length (dense_bucket_ st))) dzero.

Definition CalCardinality (st : HyperLogLogPresto) (sum : dbl) : Z :=
  dest (Z.of_nat (length (dense_bucket_ st))) sum.

(** No [sum <= 0] guard in this variant. *)
Definition ComputeCardinality (st : HyperLogLogPresto) : HyperLogLogPresto :=
  let sum := CalBucketSum st in
  let cardinality := CalCardinality st sum in
  if cardinality <=? cardinality_ st then st
  else mkP (n_leading_bits_ st) (dense_bucket_ st) (overflow_bucket_ st) cardinality.

End Cardinality.

End Presto.

(** ** Call sequences *)

(** One public call on an estimator: [AddElem] of a key (by its hash) or
    [ComputeCardinality]. *)
Inductive op := OpAdd (hash : Z) | OpCompute.

Module DenseRun.
Import Dense.

Definition run_adds (st : HyperLogLog) (hs : list Z) : HyperLogLog := fold_left AddElem hs st.

(** Register [i] as [buckets_[i]]. *)
Definition reg (st : HyperLogLog) (i : nat) : Z := default 0 (buckets_ st !! i).

Definition step `{DoubleOps} (st : HyperLogLog) (o : op) : HyperLogLog :=
  match o with OpAdd h => AddElem st h | OpCompute => ComputeCardinality st end.

Definition run `{DoubleOps} (st : HyperLogLog) (os : list op) : HyperLogLog := fold_left step os st.

End DenseRun.

Module PrestoRun.
Import Presto.

Definition run_adds (ow : Z) (st : HyperLogLogPresto) (hs : list Z) : HyperLogLogPresto :=
  fold_left (AddElem ow) hs st.

(** Register [i] as [GetBucketValue(i)]: dense field and overflow combined. *)
Definition reg (st : HyperLogLogPresto) (i : nat) : Z := GetBucketValue st (Z.of_nat i).

Definition step `{DoubleOps} (ow : Z) (st : HyperLogLogPresto) (o : op) : HyperLogLogPresto :=
  match o with OpAdd h => AddElem ow st h | OpCompute => ComputeCardinality st end.

Definition run `{DoubleOps} (ow : Z) (st : HyperLogLogPresto) (os : list op) : HyperLogLogPresto :=
  fold_left (step ow) os st.

(** State invariant kept by [AddElem] from construction on: dense fields are
    4-bit values, overflow entries are the high bits [1..4] of a rank
    [16..64], and every combined register holds a rank [0..64]. *)
Definition inv (st : HyperLogLogPresto) : Prop :=
  0 <= n_leading_bits_ st <= 30 /\
  length (dense_bucket_ st) = Z.to_nat (2 ^ n_leading_bits_ st) /\
  (forall i d, dense_bucket_ st !! i = Some d -> 0 <= d < 16) /\
  (forall i ov, overflow_bucket_ st !! i = Some ov -> 1 <= ov <= 4) /\
  (forall i, 0 <= GetBucketValue st i <= 64).

End PrestoRun.

(** ** Reference descriptions used to characterise call sequences *)

(** The largest rank among the hashes whose register index is [i], starting
    from [acc]: what a register holds after a run of [AddElem] calls, given
    the estimator's index function [idx] and rank function [rank]. *)
Definition rank_step (idx rank : Z -> Z) (i : nat) (acc : Z) (h : Z) : Z :=
  if Nat.eqb (Z.to_nat (idx h)) i then Z.max acc (rank h) else acc.

Definition max_rank (idx rank : Z -> Z) (hs : list Z) (i : nat) : Z :=
  fold_left (rank_step idx rank i) hs 0.

(** The hashes of the [AddElem] calls of a call sequence, in order. *)
Fixpoint adds_of (os : list op) : list Z :=
  match os with
  | [] => []
  | OpAdd h :: os' => h :: adds_of os'
  | OpCompute :: os' => adds_of os'
  end.

(** Representation kept by the compact estimator from construction on:
    register [i] has dense field [value & 0xF] and an overflow entry, equal
    to [value >> 4], exactly when its value is at least 16; there is no
    overflow entry beyond the last register. *)
Definition presto_repr (st : Presto.HyperLogLogPresto) : Prop :=
  forall i : nat,
    ((i < length (Presto.dense_bucket_ st))%nat ->
       Presto.dense_bucket_ st !! i = Some (Z.land (PrestoRun.reg st i) 15) /\
       Presto.overflow_bucket_ st !! i =
         (if PrestoRun.reg st i <? 16 then None else Some (Z.shiftr (PrestoRun.reg st i) 4))) /\
    ((length (Presto.dense_bucket_ st) <= i)%nat -> Presto.overflow_bucket_ st !! i = None).

(** ** A double model for concrete runs: exact rationals with the underflow
    of [1.0 / std::pow(2, v)] to [0.0] from [v = 1075] on. *)
Definition Qinvpow2 (v : Z) : Q :=
  if (0 <=? v) && (v <? 1075) then 1 # Z.to_pos (2 ^ v) else 0%Q.

#[global] Instance QDouble : DoubleOps := {
  dbl := Q;
  dzero := 0%Q;
  dadd := Qplus;
  dinvpow2 := Qinvpow2;
  dle0 := fun s => Qle_bool s 0%Q;
  dest := fun m s => Qfloor (inject_Z (m * m) * (79402 # 100000) / s)%Q;
  dpos := fun s => (0 < s)%Q;
  dnonneg := fun s => (0 <= s)%Q
}.

(** * Proofs *)

(** ** Bit utilities *)

Lemma testbit_add_pow2 (n b i j : Z) :
  0 <= i -> 0 <= n < 2 ^ i -> 0 <= b ->
  Z.testbit (n + b * 2 ^ i) j = if j <? i then Z.testbit n j else Z.testbit b (j - i).
Proof.
  intros Hi Hn Hb. assert (Hp : 0 < 2 ^ i) by (apply Z.pow_pos_nonneg; lia).
  destruct (Z.ltb_spec j i) as [Hj | Hj].
  - destruct (Z.ltb_spec j 0) as [Hj0 | Hj0].
    + rewrite !Z.testbit_neg_r by lia. reflexivity.
    + rewrite <- (Z.mod_pow2_bits_low (n + b * 2 ^ i) i j) by lia.
      rewrite Z.mod_add by lia. rewrite Z.mod_small by lia. reflexivity.
  - replace j with (j - i + i) at 1 by lia.
    rewrite <- Z.shiftr_spec by lia. rewrite Z.shiftr_div_pow2 by lia.
    rewrite Z.div_add by lia. rewrite Z.div_small by lia. reflexivity.
Qed.

Lemma testbit_small_high (n i j : Z) : 0 <= i <= j -> 0 <= n < 2 ^ i -> Z.testbit n j = false.
Proof.
  intros Hij Hn. rewrite <- (Z.mod_small n (2 ^ i)) by lia.
  apply Z.mod_pow2_bits_high. lia.
Qed.

Lemma bit_cases (h t : Z) : (bit h t = 1 /\ Z.testbit h t = true) \/ (bit h t = 0 /\ Z.testbit h t = false).
Proof. unfold bit. destruct (Z.testbit h t); auto. Qed.

Lemma cb_loop_cbi_loop (h : Z) (k : nat) : forall i n, Dense.cb_loop h i k n = Presto.cbi_loop h i k n.
Proof. induction k as [| k IH]; intros i n; simpl; [reflexivity | apply IH]. Qed.

Lemma cbi_loop_spec (h : Z) (k : nat) : forall i n, 0 <= i -> 0 <= n < 2 ^ i ->
  0 <= Presto.cbi_loop h i k n < 2 ^ (i + Z.of_nat k) /\
  forall j, Z.testbit (Presto.cbi_loop h i k n) j =
    if j <? i then Z.testbit n j else (j <? i + Z.of_nat k) && Z.testbit h (63 - j).
Proof.
  induction k as [| k IH]; intros i n Hi Hn; simpl.
  - rewrite Z.add_0_r. split; [lia |]. intros j.
    destruct (Z.ltb_spec j i); [reflexivity |].
    rewrite andb_false_l. apply (testbit_small_high n i j); lia.
  - rewrite Z.shiftl_1_l.
    assert (Hp : 2 ^ (i + 1) = 2 ^ i + 2 ^ i) by (rewrite Z.pow_add_r by lia; lia).
    assert (Hn' : 0 <= n + bit h (63 - i) * 2 ^ i < 2 ^ (i + 1))
      by (destruct (bit_cases h (63 - i)) as [[-> _] | [-> _]]; lia).
    destruct (IH (i + 1) _ ltac:(lia) Hn') as [Hr Hb].
    replace (i + Z.of_nat (S k)) with (i + 1 + Z.of_nat k) by lia.
    split; [exact Hr |]. intros j. rewrite Hb.
    rewrite testbit_add_pow2 by (try lia; unfold bit; destruct (Z.testbit h _); lia).
    destruct (Z.ltb_spec j i), (Z.ltb_spec j (i + 1)); try lia; try reflexivity.
    replace j with i by lia. rewrite Z.sub_diag.
    destruct (Z.ltb_spec i (i + 1 + Z.of_nat k)); [| lia].
    destruct (bit_cases h (63 - i)) as [[-> ->] | [-> ->]]; reflexivity.
Qed.

(** [PositionOfRightMostOne]: the loop from [i] either finds the first set
    bit of [[i, 64 - p)] or runs out with [64 - p]. *)
Lemma prmo_loop_spec (p h : Z) (k : nat) : forall i, 0 <= i -> i + Z.of_nat k = 64 - p ->
  ((forall j, i <= j < 64 - p -> Z.testbit h j = false) /\ Presto.prmo_loop p h i k = 64 - p) \/
  (i <= Presto.prmo_loop p h i k < 64 - p /\ Z.testbit h (Presto.prmo_loop p h i k) = true /\
   forall j, i <= j < Presto.prmo_loop p h i k -> Z.testbit h j = false).
Proof.
  induction k as [| k IH]; intros i Hi Hk; simpl.
  - left. split; [intros j Hj; lia | reflexivity].
  - destruct (Z.testbit h i) eqn:Hbit.
    + right. split; [lia |]. split; [exact Hbit | intros j Hj; lia].
    + destruct (IH (i + 1) ltac:(lia) ltac:(lia)) as [[Hall Hr] | [Hr [Ht Hlow]]].
      * left. split; [| exact Hr]. intros j Hj.
        destruct (Z.eq_dec j i) as [-> | Hne]; [exact Hbit | apply Hall; lia].
      * right. split; [lia |]. split; [exact Ht |]. intros j Hj.
        destruct (Z.eq_dec j i) as [-> | Hne]; [exact Hbit | apply Hlow; lia].
Qed.

(** [PositionOfLeftmostOne]: tail position [t] (1-based) is hash bit [64 - p - t]. *)
Lemma plo_loop_spec (p h : Z) (k : nat) : forall i, p <= i -> i + Z.of_nat k = 64 ->
  ((forall t, i - p + 1 <= t <= 64 - p -> Z.testbit h (64 - p - t) = false) /\
   Dense.plo_loop p h i k = 0) \/
  (i - p + 1 <= Dense.plo_loop p h i k <= 64 - p /\
   Z.testbit h (64 - p - Dense.plo_loop p h i k) = true /\
   forall t, i - p + 1 <= t < Dense.plo_loop p h i k -> Z.testbit h (64 - p - t) = false).
Proof.
  induction k as [| k IH]; intros i Hi Hk; simpl.
  - left. split; [intros t Ht; lia | reflexivity].
  - destruct (Z.testbit h (64 - 1 - i)) eqn:Hbit.
    + right. split; [lia |]. split; [| intros t Ht; lia].
      replace (64 - p - (i - p + 1)) with (64 - 1 - i) by lia. exact Hbit.
    + destruct (IH (i + 1) ltac:(lia) ltac:(lia)) as [[Hall Hr] | [Hr [Ht Hlow]]].
      * left. split; [| exact Hr]. intros t Ht.
        destruct (Z.eq_dec t (i - p + 1)) as [-> | Hne].
        -- replace (64 - p - (i - p + 1)) with (64 - 1 - i) by lia. exact Hbit.
        -- apply Hall; lia.
      * right. split; [lia |]. split; [exact Ht |]. intros t Ht'.
        destruct (Z.eq_dec t (i - p + 1)) as [-> | Hne].
        -- replace (64 - p - (i - p + 1)) with (64 - 1 - i) by lia. exact Hbit.
        -- apply Hlow; lia.
Qed.

(** C1 (counterexample): with [p = 2] and only the top bit of the hash set,
    [ComputeBucket] (and [ComputeBucketIndex]) return 1, not [hash >> 62 = 2]. *)
Lemma C1_bucket_not_shiftr :
  Dense.ComputeBucket 2 (2 ^ 63) = 1 /\ Presto.ComputeBucketIndex 2 (2 ^ 63) = 1 /\
  Z.shiftr (2 ^ 63) (64 - 2) = 2.
Proof. vm_compute. repeat split. Qed.

(** C1 (amended): for every constructible precision [0 <= p <= 30] and
    every hash, [ComputeBucket] and [ComputeBucketIndex] agree and return an
    integer in [[0, 2^p)] whose bit [j] is hash bit [63 - j]: the top [p]
    bits read with the most-significant selected bit as the least significant
    digit, i.e. the bit reversal of [hash >> (64 - p)]; it is 0 when [p = 0]. *)
Theorem C1_bucket_index_bits (p h : Z) :
  0 <= p <= 30 ->
  Presto.ComputeBucketIndex p h = Dense.ComputeBucket p h /\
  0 <= Dense.ComputeBucket p h < 2 ^ p /\
  (forall j, 0 <= j -> Z.testbit (Dense.ComputeBucket p h) j = (j <? p) && Z.testbit h (63 - j)) /\
  (forall j, 0 <= j < p ->
     Z.testbit (Dense.ComputeBucket p h) j = Z.testbit (Z.shiftr h (64 - p)) (p - 1 - j)) /\
  (p = 0 -> Dense.ComputeBucket p h = 0).
Proof.
  intros Hp. unfold Dense.ComputeBucket, Presto.ComputeBucketIndex.
  replace (Dense.cb_loop h 0 (Z.to_nat p) 0) with (Presto.cbi_loop h 0 (Z.to_nat p) 0)
    by (symmetry; apply cb_loop_cbi_loop).
  destruct (cbi_loop_spec h (Z.to_nat p) 0 0 ltac:(lia) ltac:(simpl; lia)) as [Hr Hb].
  rewrite Z2Nat.id in Hr by lia. rewrite Z2Nat.id in Hb by lia. simpl in Hr, Hb. rewrite Z.add_0_l in Hr, Hb.
  split; [reflexivity |]. split; [exact Hr |]. split; [| split].
  - intros j Hj. rewrite Hb. destruct (Z.ltb_spec j 0); [lia | reflexivity].
  - intros j Hj. rewrite Hb. rewrite Z.shiftr_spec by lia.
    destruct (Z.ltb_spec j 0); [lia |]. destruct (Z.ltb_spec j p); [| lia].
    replace (p - 1 - j + (64 - p)) with (63 - j) by lia. reflexivity.
  - intros ->. reflexivity.
Qed.

Lemma C1_bucket_index_bits_witness :
  (0 <= 2 <= 30 /\ Dense.ComputeBucket 2 (2 ^ 63) = 1) /\
  (Presto.ComputeBucketIndex 2 (2 ^ 63) = Dense.ComputeBucket 2 (2 ^ 63) /\
   0 <= Dense.ComputeBucket 2 (2 ^ 63) < 2 ^ 2 /\
   (forall j, 0 <= j -> Z.testbit (Dense.ComputeBucket 2 (2 ^ 63)) j = (j <? 2) && Z.testbit (2 ^ 63) (63 - j)) /\
   (forall j, 0 <= j < 2 ->
      Z.testbit (Dense.ComputeBucket 2 (2 ^ 63)) j = Z.testbit (Z.shiftr (2 ^ 63) (64 - 2)) (2 - 1 - j)) /\
   (2 = 0 -> Dense.ComputeBucket 2 (2 ^ 63) = 0)).
Proof. split; [split; [lia | vm_compute; reflexivity] | apply (C1_bucket_index_bits 2 (2 ^ 63)); lia]. Defined.

(** C6: for [0 <= p <= 64], [PositionOfRightMostOne] returns the 0-based
    position of the lowest set bit among the [64 - p] low tail bits, and
    [64 - p] when the whole tail is zero. *)
Theorem C6_rightmost_one (p h : Z) :
  0 <= p <= 64 ->
  ((forall j, 0 <= j < 64 - p -> Z.testbit h j = false) ->
     Presto.PositionOfRightMostOne p h = 64 - p) /\
  (forall j0, 0 <= j0 < 64 - p -> Z.testbit h j0 = true ->
     0 <= Presto.PositionOfRightMostOne p h < 64 - p /\
     Z.testbit h (Presto.PositionOfRightMostOne p h) = true /\
     forall j, 0 <= j < Presto.PositionOfRightMostOne p h -> Z.testbit h j = false).
Proof.
  intros Hp. unfold Presto.PositionOfRightMostOne.
  destruct (prmo_loop_spec p h (Z.to_nat (64 - p)) 0 ltac:(lia) ltac:(lia))
    as [[Hall Hr] | [Hr [Ht Hlow]]].
  - split; [intros _; exact Hr |]. intros j0 Hj0 Hb. rewrite Hall in Hb by lia. discriminate.
  - split.
    + intros Hall. rewrite Hall in Ht by lia. discriminate.
    + intros _ _ _. auto.
Qed.

Lemma C6_rightmost_one_witness :
  0 <= 60 <= 64 /\
  ((forall j, 0 <= j < 64 - 60 -> Z.testbit 8 j = false) -> Presto.PositionOfRightMostOne 60 8 = 64 - 60) /\
  (forall j0, 0 <= j0 < 64 - 60 -> Z.testbit 8 j0 = true ->
     0 <= Presto.PositionOfRightMostOne 60 8 < 64 - 60 /\
     Z.testbit 8 (Presto.PositionOfRightMostOne 60 8) = true /\
     forall j, 0 <= j < Presto.PositionOfRightMostOne 60 8 -> Z.testbit 8 j = false).
Proof. split; [lia | apply (C6_rightmost_one 60 8); lia]. Defined.

(** C7: for [0 <= p <= 64], [PositionOfLeftmostOne] returns the 1-based
    position [t], counted from the bit just below the index bits, of the
    first set tail bit (hash bit [64 - p - t]), and 0 when the tail is zero. *)
Theorem C7_leftmost_one (p h : Z) :
  0 <= p <= 64 ->
  ((forall t, 1 <= t <= 64 - p -> Z.testbit h (64 - p - t) = false) ->
     Dense.PositionOfLeftmostOne p h = 0) /\
  (forall t0, 1 <= t0 <= 64 - p -> Z.testbit h (64 - p - t0) = true ->
     1 <= Dense.PositionOfLeftmostOne p h <= 64 - p /\
     Z.testbit h (64 - p - Dense.PositionOfLeftmostOne p h) = true /\
     forall t, 1 <= t < Dense.PositionOfLeftmostOne p h -> Z.testbit h (64 - p - t) = false).
Proof.
  intros Hp. unfold Dense.PositionOfLeftmostOne.
  destruct (plo_loop_spec p h (Z.to_nat (64 - p)) p ltac:(lia) ltac:(lia))
    as [[Hall Hr] | [Hr [Ht Hlow]]].
  - split; [intros _; exact Hr |]. intros t0 Ht0 Hb. rewrite Hall in Hb by lia. discriminate.
  - split.
    + intros Hall. rewrite Hall in Ht by lia. discriminate.
    + intros _ _ _. split; [lia |]. split; [exact Ht |]. intros t Ht'. apply Hlow. lia.
Qed.

Lemma C7_leftmost_one_witness :
  0 <= 60 <= 64 /\
  ((forall t, 1 <= t <= 64 - 60 -> Z.testbit 2 (64 - 60 - t) = false) -> Dense.PositionOfLeftmostOne 60 2 = 0) /\
  (forall t0, 1 <= t0 <= 64 - 60 -> Z.testbit 2 (64 - 60 - t0) = true ->
     1 <= Dense.PositionOfLeftmostOne 60 2 <= 64 - 60 /\
     Z.testbit 2 (64 - 60 - Dense.PositionOfLeftmostOne 60 2) = true /\
     forall t, 1 <= t < Dense.PositionOfLeftmostOne 60 2 -> Z.testbit 2 (64 - 60 - t) = false).
Proof. split; [lia | apply (C7_leftmost_one 60 2); lia]. Defined.

Example C7_all_zero_tail : Dense.PositionOfLeftmostOne 4 (2 ^ 60) = 0 /\ Presto.PositionOfRightMostOne 4 (2 ^ 60) = 60.
Proof. vm_compute. split; reflexivity. Qed.

(** ** Construction *)

Lemma pow2_bounds (p : Z) : 0 <= p <= 30 -> 1 <= 2 ^ p <= 2 ^ 30.
Proof.
  intros Hp. split.
  - change 1 with (2 ^ 0). apply Z.pow_le_mono_r; lia.
  - apply Z.pow_le_mono_r; lia.
Qed.

Lemma alloc_ok (p : Z) : 0 <= p <= 30 ->
  int_shl1 p = Some (2 ^ p) /\ vector_new (2 ^ p) = Some (repeat 0 (Z.to_nat (2 ^ p))).
Proof.
  intros Hp. pose proof (pow2_bounds p Hp) as Hb. unfold int_shl1, vector_new.
  destruct (Z.leb_spec 0 p); [| lia]. destruct (Z.ltb_spec p 31); [| lia]. split; [reflexivity |].
  rewrite Z.mod_small by (split; [lia |]; apply Z.le_lt_trans with (2 ^ 30); [lia | reflexivity]).
  destruct (Z.leb_spec (2 ^ p) vector_max_size) as [_ | Hc]; [reflexivity |].
  exfalso. unfold vector_max_size in Hc. assert (2 ^ 30 < 2 ^ 60 - 1) by reflexivity. lia.
Qed.

Lemma alloc_fail (p : Z) : 31 <= p -> match int_shl1 p with None => True | Some c => vector_new c = None end.
Proof.
  intros Hp. unfold int_shl1.
  destruct (Z.leb_spec 0 p), (Z.ltb_spec p 31); try lia; simpl.
  destruct (Z.eqb_spec p 31); [reflexivity | exact I].
Qed.

Lemma alloc_inv (p c : Z) (b : list Z) :
  int_shl1 p = Some c -> vector_new c = Some b -> 0 <= p <= 30 /\ b = repeat 0 (Z.to_nat (2 ^ p)).
Proof.
  intros Hs Hv. destruct (Z.le_gt_cases 31 p) as [Hge | Hlt].
  - pose proof (alloc_fail p Hge) as Hf. rewrite Hs, Hv in Hf. discriminate.
  - assert (Hp : 0 <= p) by (unfold int_shl1 in Hs; destruct (Z.leb_spec 0 p); [lia |];
      simpl in Hs; destruct (Z.eqb_spec p 31); [lia | discriminate]).
    destruct (alloc_ok p ltac:(lia)) as [Hs' Hv']. rewrite Hs' in Hs. injection Hs as <-.
    rewrite Hv' in Hv. injection Hv as <-. split; [lia | reflexivity].
Qed.

Lemma clamp_max (n : Z) : (if n <? 0 then 0 else n) = Z.max 0 n.
Proof. destruct (Z.ltb_spec n 0); lia. Qed.

Lemma Dense_ctor_inv (n : Z) (st : Dense.HyperLogLog) : Dense.ctor n = Some st ->
  0 <= Dense.n_bits_ st <= 30 /\ Dense.n_bits_ st = Z.max 0 n /\
  Dense.buckets_ st = repeat 0 (Z.to_nat (2 ^ Dense.n_bits_ st)) /\ Dense.cardinality_ st = 0.
Proof.
  unfold Dense.ctor. rewrite clamp_max.
  destruct (int_shl1 (Z.max 0 n)) as [c |] eqn:Hs; [| discriminate].
  destruct (vector_new c) as [b |] eqn:Hv; [| discriminate].
  intros H. injection H as <-. simpl.
  destruct (alloc_inv _ _ _ Hs Hv) as [Hp ->]. auto.
Qed.

Lemma Presto_ctor_inv (n : Z) (st : Presto.HyperLogLogPresto) : Presto.ctor n = Some st ->
  0 <= Presto.n_leading_bits_ st <= 30 /\ Presto.n_leading_bits_ st = Z.max 0 n /\
  Presto.dense_bucket_ st = repeat 0 (Z.to_nat (2 ^ Presto.n_leading_bits_ st)) /\
  Presto.overflow_bucket_ st = empty /\ Presto.cardinality_ st = 0.
Proof.
  unfold Presto.ctor. rewrite clamp_max.
  destruct (int_shl1 (Z.max 0 n)) as [c |] eqn:Hs; [| discriminate].
  destruct (vector_new c) as [b |] eqn:Hv; [| discriminate].
  intros H. injection H as <-. simpl.
  destruct (alloc_inv _ _ _ Hs Hv) as [Hp ->]. auto.
Qed.

Lemma Dense_AddElem_n_bits (st : Dense.HyperLogLog) (h : Z) :
  Dense.n_bits_ (Dense.AddElem st h) = Dense.n_bits_ st.
Proof. unfold Dense.AddElem. destruct (_ <=? _); reflexivity. Qed.

Lemma Presto_AddElem_n_leading_bits (ow : Z) (st : Presto.HyperLogLogPresto) (h : Z) :
  Presto.n_leading_bits_ (Presto.AddElem ow st h) = Presto.n_leading_bits_ st.
Proof.
  unfold Presto.AddElem, Presto.SetBucketValue.
  destruct (_ <? _); [destruct (_ <=? 0) |]; reflexivity.
Qed.

Lemma Dense_run_adds_n_bits (hs : list Z) : forall st,
  Dense.n_bits_ (DenseRun.run_adds st hs) = Dense.n_bits_ st.
Proof.
  unfold DenseRun.run_adds.
  induction hs as [| h hs IH]; intros st; simpl; [reflexivity |].
  rewrite IH. apply Dense_AddElem_n_bits.
Qed.

Lemma Presto_run_adds_n_leading_bits (ow : Z) (hs : list Z) : forall st,
  Presto.n_leading_bits_ (PrestoRun.run_adds ow st hs) = Presto.n_leading_bits_ st.
Proof.
  unfold PrestoRun.run_adds.
  induction hs as [| h hs IH]; intros st; simpl; [reflexivity |].
  rewrite IH. apply Presto_AddElem_n_leading_bits.
Qed.

(** C9 (counterexample): the int16 argument 31 is not clamped from above;
    [1 << 31] is [INT_MIN], the vector count becomes [2^64 - 2^31] and the
    vector constructor throws, for both estimators. *)
Lemma C9_ctor_31_fails : Dense.ctor 31 = None /\ Presto.ctor 31 = None.
Proof. vm_compute. split; reflexivity. Qed.

(** C9 (amended): for an int16 argument [n], a negative [n] is clamped to
    0; for [n <= 30] both constructors succeed with [2^max(0,n)] zero
    registers, no overflow entries and cardinality 0; for [n >= 31] neither
    succeeds; with precision 0 there is one register and every later
    [AddElem] maps its hash to register 0. *)
Theorem C9_ctor_amended (n : Z) :
  -32768 <= n <= 32767 ->
  (n <= 30 ->
     Dense.ctor n = Some (Dense.mkHLL (Z.max 0 n) (repeat 0 (Z.to_nat (2 ^ Z.max 0 n))) 0) /\
     Presto.ctor n = Some (Presto.mkP (Z.max 0 n) (repeat 0 (Z.to_nat (2 ^ Z.max 0 n))) empty 0)) /\
  (31 <= n -> Dense.ctor n = None /\ Presto.ctor n = None) /\
  (n <= 0 ->
     length (repeat 0 (Z.to_nat (2 ^ Z.max 0 n))) = 1%nat /\
     (forall st0 hs h, Dense.ctor n = Some st0 ->
        Dense.ComputeBucket (Dense.n_bits_ (DenseRun.run_adds st0 hs)) h = 0) /\
     (forall st0 ow hs h, Presto.ctor n = Some st0 ->
        Presto.ComputeBucketIndex (Presto.n_leading_bits_ (PrestoRun.run_adds ow st0 hs)) h = 0)).
Proof.
  intros Hn. split; [| split].
  - intros Hle. destruct (alloc_ok (Z.max 0 n) ltac:(lia)) as [Hs Hv].
    unfold Dense.ctor, Presto.ctor. rewrite clamp_max, Hs, Hv. split; reflexivity.
  - intros Hge. pose proof (alloc_fail n Hge) as Hf.
    unfold Dense.ctor, Presto.ctor. rewrite clamp_max.
    replace (Z.max 0 n) with n by lia.
    destruct (int_shl1 n) as [c |]; [rewrite Hf |]; split; reflexivity.
  - intros Hle. replace (Z.max 0 n) with 0 by lia. split; [reflexivity | split].
    + intros st0 hs h Hc. rewrite Dense_run_adds_n_bits.
      destruct (Dense_ctor_inv n st0 Hc) as [_ [-> _]].
      replace (Z.max 0 n) with 0 by lia. reflexivity.
    + intros st0 ow hs h Hc. rewrite Presto_run_adds_n_leading_bits.
      destruct (Presto_ctor_inv n st0 Hc) as [_ [-> _]].
      replace (Z.max 0 n) with 0 by lia. reflexivity.
Qed.

Lemma C9_ctor_amended_witness :
  -32768 <= -5 <= 32767 /\ -5 <= 30 /\ -5 <= 0 /\
  Dense.ctor (-5) = Some (Dense.mkHLL 0 [0] 0) /\
  Presto.ctor (-5) = Some (Presto.mkP 0 [0] empty 0) /\
  Dense.ComputeBucket (Dense.n_bits_ (DenseRun.run_adds (Dense.mkHLL 0 [0] 0) [7; 2 ^ 63])) (2 ^ 63) = 0.
Proof.
  destruct (C9_ctor_amended (-5) ltac:(lia)) as [Hok [_ Hzero]].
  destruct (Hok ltac:(lia)) as [Hd Hp].
  destruct (Hzero ltac:(lia)) as [_ [Hb _]].
  split; [lia |]. split; [lia |]. split; [lia |]. split; [exact Hd |]. split; [exact Hp |].
  exact (Hb (Dense.mkHLL 0 [0] 0) [7; 2 ^ 63] (2 ^ 63) Hd).
Defined.

(** ** Compact registers: [SetBucketValue] and [GetBucketValue] *)

Lemma Set_fields (ow : Z) (st : Presto.HyperLogLogPresto) (i v : Z) :
  Presto.dense_bucket_ (Presto.SetBucketValue ow st i v) = <[Z.to_nat i := Z.land v 15]> (Presto.dense_bucket_ st) /\
  Presto.overflow_bucket_ (Presto.SetBucketValue ow st i v) =
    (if Z.shiftr v 4 <=? 0 then Presto.overflow_bucket_ st
     else <[Z.to_nat i := Z.shiftr v 4 mod 2 ^ ow]> (Presto.overflow_bucket_ st)) /\
  Presto.n_leading_bits_ (Presto.SetBucketValue ow st i v) = Presto.n_leading_bits_ st /\
  Presto.cardinality_ (Presto.SetBucketValue ow st i v) = Presto.cardinality_ st.
Proof.
  unfold Presto.SetBucketValue, Presto.DENSE_BUCKET_SIZE.
  destruct (Z.shiftr v 4 <=? 0); repeat split.
Qed.

Lemma shiftr4_pos (v : Z) : 0 <= v -> (Z.shiftr v 4 <=? 0) = (v <? 16).
Proof.
  intros Hv. rewrite Z.shiftr_div_pow2 by lia. change (2 ^ 4) with 16.
  destruct (Z.leb_spec (v / 16) 0), (Z.ltb_spec v 16); try reflexivity.
  - pose proof (Z.div_le_lower_bound v 16 1 ltac:(lia) ltac:(lia)). lia.
  - rewrite Z.div_small in H by lia. lia.
Qed.

(** Dense field and truncated overflow recombine to the value written. *)
Lemma recombine (ow v : Z) : 0 <= ow -> 0 <= v < 2 ^ (4 + ow) ->
  Z.land v 15 + Z.shiftl (Z.shiftr v 4 mod 2 ^ ow) 4 = v.
Proof.
  intros Hw Hv. change 15 with (Z.ones 4). rewrite Z.land_ones by lia.
  rewrite Z.shiftr_div_pow2, Z.shiftl_mul_pow2 by lia. change (2 ^ 4) with 16.
  rewrite Z.pow_add_r in Hv by lia. change (2 ^ 4) with 16 in Hv.
  assert (0 < 2 ^ ow) by (apply Z.pow_pos_nonneg; lia).
  rewrite (Z.mod_small (v / 16)) by (split; [apply Z.div_pos; lia | apply Z.div_lt_upper_bound; lia]).
  pose proof (Z.div_mod v 16 ltac:(lia)). lia.
Qed.

Lemma land15_small (v : Z) : 0 <= v < 16 -> Z.land v 15 = v.
Proof. intros Hv. change 15 with (Z.ones 4). rewrite Z.land_ones by lia. apply Z.mod_small. exact Hv. Qed.

Lemma Get_Set_same (ow : Z) (st : Presto.HyperLogLogPresto) (i v : Z) :
  (Z.to_nat i < length (Presto.dense_bucket_ st))%nat ->
  Presto.GetBucketValue (Presto.SetBucketValue ow st i v) i =
    (if Z.shiftr v 4 <=? 0 then
       match Presto.overflow_bucket_ st !! Z.to_nat i with
       | None => Z.land v 15
       | Some ov => (Z.land v 15 + Z.shiftl ov 4) mod 2 ^ 64
       end
     else (Z.land v 15 + Z.shiftl (Z.shiftr v 4 mod 2 ^ ow) 4) mod 2 ^ 64).
Proof.
  intros Hi. destruct (Set_fields ow st i v) as [Hd [Ho _]].
  unfold Presto.GetBucketValue, Presto.DENSE_BUCKET_SIZE. rewrite Hd, Ho.
  rewrite list_lookup_insert_eq by exact Hi. simpl.
  destruct (Z.shiftr v 4 <=? 0); [reflexivity |]. rewrite lookup_insert_eq. reflexivity.
Qed.

Lemma Get_Set_other (ow : Z) (st : Presto.HyperLogLogPresto) (i v j : Z) :
  Z.to_nat j <> Z.to_nat i ->
  Presto.GetBucketValue (Presto.SetBucketValue ow st i v) j = Presto.GetBucketValue st j.
Proof.
  intros Hne. destruct (Set_fields ow st i v) as [Hd [Ho _]].
  unfold Presto.GetBucketValue. rewrite Hd, Ho.
  rewrite list_lookup_insert_ne by congruence.
  destruct (Z.shiftr v 4 <=? 0); [reflexivity |]. rewrite lookup_insert_ne by congruence. reflexivity.
Qed.

(** C2 (counterexample): a register that already holds rank 20 (dense 4,
    overflow 1) and is then written with 3 reads back 19: the stale
    overflow entry is kept. Overflow width 3 here; any width behaves alike. *)
Lemma C2_stale_overflow :
  Presto.ctor 0 = Some (Presto.mkP 0 [0] empty 0) /\
  Presto.GetBucketValue (Presto.AddElem 3 (Presto.mkP 0 [0] empty 0) (2 ^ 20)) 0 = 20 /\
  Presto.GetBucketValue (Presto.SetBucketValue 3 (Presto.AddElem 3 (Presto.mkP 0 [0] empty 0) (2 ^ 20)) 0 3) 0 = 19.
Proof. vm_compute. repeat split. Qed.

(** C2 (amended): for an overflow width [0 <= ow <= 60], a valid index and
    [0 <= v < 2^(4+ow)], [GetBucketValue] after [SetBucketValue(index, v)]
    returns [v] when [v >= 16] or no overflow entry existed for [index];
    for [v < 16] over an existing entry [ov] it returns [v + (ov << 4)]. *)
Theorem C2_roundtrip_amended (ow : Z) (st : Presto.HyperLogLogPresto) (i v : Z) :
  0 <= ow <= 60 -> 0 <= i < Z.of_nat (length (Presto.dense_bucket_ st)) -> 0 <= v < 2 ^ (4 + ow) ->
  ((16 <= v \/ Presto.overflow_bucket_ st !! Z.to_nat i = None) ->
     Presto.GetBucketValue (Presto.SetBucketValue ow st i v) i = v) /\
  (forall ov, v < 16 -> Presto.overflow_bucket_ st !! Z.to_nat i = Some ov ->
     Presto.GetBucketValue (Presto.SetBucketValue ow st i v) i = (v + Z.shiftl ov 4) mod 2 ^ 64).
Proof.
  intros Hw Hi Hv. rewrite Get_Set_same by lia. rewrite shiftr4_pos by lia.
  assert (H64 : 2 ^ (4 + ow) <= 2 ^ 64) by (apply Z.pow_le_mono_r; lia).
  split.
  - intros Hcase. destruct (Z.ltb_spec v 16) as [Hs | Hs].
    + destruct Hcase as [Hc | ->]; [lia |]. apply land15_small. lia.
    + rewrite recombine by lia. apply Z.mod_small. lia.
  - intros ov Hs Hov. destruct (Z.ltb_spec v 16); [| lia]. rewrite Hov.
    rewrite land15_small by lia. reflexivity.
Qed.

Lemma C2_roundtrip_amended_witness :
  (0 <= 3 <= 60 /\ 0 <= 0 < Z.of_nat (length (Presto.dense_bucket_ (Presto.mkP 0 [0] empty 0))) /\ 0 <= 100 < 2 ^ (4 + 3)) /\
  Presto.GetBucketValue (Presto.SetBucketValue 3 (Presto.mkP 0 [0] empty 0) 0 100) 0 = 100.
Proof.
  split; [split; [lia | split; [simpl; lia | split; [lia | reflexivity]]] |].
  destruct (C2_roundtrip_amended 3 (Presto.mkP 0 [0] empty 0) 0 100 ltac:(lia) ltac:(simpl; lia)
    ltac:(split; [lia | reflexivity])) as [H _].
  apply H. left. lia.
Defined.

(** C8 (counterexample): with overflow width 3, [SetBucketValue(0, 128)]
    has [128 >> 4 = 8 > 0] but stores the 3-bit truncation 0, so the
    register then reads back 0. *)
Lemma C8_overflow_truncated :
  Presto.ctor 0 = Some (Presto.mkP 0 [0] empty 0) /\
  Z.shiftr 128 4 = 8 /\
  Presto.overflow_bucket_ (Presto.SetBucketValue 3 (Presto.mkP 0 [0] empty 0) 0 128) !! 0%nat = Some 0 /\
  Presto.GetBucketValue (Presto.SetBucketValue 3 (Presto.mkP 0 [0] empty 0) 0 128) 0 = 0.
Proof. vm_compute. repeat split. Qed.

(** C8 (amended): for a valid index and a 64-bit value, [SetBucketValue]
    writes [value & 0xF] into the dense field at [index]; when
    [value >> 4 > 0] it writes [(value >> 4) mod 2^ow] (which is
    [value >> 4] for [value < 2^(4+ow)]) into the overflow entry at [index];
    when [value >> 4 = 0] the overflow entry at [index] is untouched; no
    other register's dense field or overflow entry changes. *)
Theorem C8_set_frame_amended (ow : Z) (st : Presto.HyperLogLogPresto) (i v : Z) :
  0 <= ow -> 0 <= i < Z.of_nat (length (Presto.dense_bucket_ st)) -> 0 <= v < 2 ^ 64 ->
  Presto.dense_bucket_ (Presto.SetBucketValue ow st i v) !! Z.to_nat i = Some (Z.land v 15) /\
  (0 < Z.shiftr v 4 ->
     Presto.overflow_bucket_ (Presto.SetBucketValue ow st i v) !! Z.to_nat i = Some (Z.shiftr v 4 mod 2 ^ ow)) /\
  (v < 2 ^ (4 + ow) -> Z.shiftr v 4 mod 2 ^ ow = Z.shiftr v 4) /\
  (Z.shiftr v 4 = 0 ->
     Presto.overflow_bucket_ (Presto.SetBucketValue ow st i v) !! Z.to_nat i = Presto.overflow_bucket_ st !! Z.to_nat i) /\
  (forall j : nat, j <> Z.to_nat i ->
     Presto.dense_bucket_ (Presto.SetBucketValue ow st i v) !! j = Presto.dense_bucket_ st !! j /\
     Presto.overflow_bucket_ (Presto.SetBucketValue ow st i v) !! j = Presto.overflow_bucket_ st !! j) /\
  length (Presto.dense_bucket_ (Presto.SetBucketValue ow st i v)) = length (Presto.dense_bucket_ st).
Proof.
  intros Hw Hi Hv. destruct (Set_fields ow st i v) as [Hd [Ho _]]. rewrite Hd, Ho.
  split; [apply list_lookup_insert_eq; lia |]. split; [| split; [| split; [| split]]].
  - intros Hpos. destruct (Z.leb_spec (Z.shiftr v 4) 0); [lia |]. apply lookup_insert_eq.
  - intros Hlt. apply Z.mod_small. rewrite Z.shiftr_div_pow2 by lia.
    rewrite Z.pow_add_r in Hlt by lia.
    split; [apply Z.div_pos; lia | apply Z.div_lt_upper_bound; lia].
  - intros Hz. rewrite Hz. reflexivity.
  - intros j Hj. split; [apply list_lookup_insert_ne; congruence |].
    destruct (Z.shiftr v 4 <=? 0); [reflexivity |]. apply lookup_insert_ne. congruence.
  - apply length_insert.
Qed.

Lemma C8_set_frame_amended_witness :
  (0 <= 3 /\ 0 <= 0 < Z.of_nat (length (Presto.dense_bucket_ (Presto.mkP 0 [0] empty 0))) /\ 0 <= 40 < 2 ^ 64) /\
  Presto.dense_bucket_ (Presto.SetBucketValue 3 (Presto.mkP 0 [0] empty 0) 0 40) !! Z.to_nat 0 = Some (Z.land 40 15).
Proof.
  split; [split; [lia | split; [simpl; lia | split; [lia | reflexivity]]] |].
  apply (C8_set_frame_amended 3 (Presto.mkP 0 [0] empty 0) 0 40); [lia | simpl; lia | split; [lia | reflexivity]].
Defined.

(** ** Register monotonicity under [AddElem] *)

Lemma Dense_AddElem_reg (st : Dense.HyperLogLog) (h : Z) (i : nat) :
  DenseRun.reg (Dense.AddElem st h) i = DenseRun.reg st i \/
  (DenseRun.reg st i < DenseRun.reg (Dense.AddElem st h) i /\
   DenseRun.reg (Dense.AddElem st h) i = Dense.PositionOfLeftmostOne (Dense.n_bits_ st) h /\
   i = Z.to_nat (Dense.ComputeBucket (Dense.n_bits_ st) h)).
Proof.
  unfold Dense.AddElem, DenseRun.reg.
  set (n := Z.to_nat (Dense.ComputeBucket (Dense.n_bits_ st) h)).
  set (lmo := Dense.PositionOfLeftmostOne (Dense.n_bits_ st) h).
  destruct (Z.leb_spec lmo (default 0 (Dense.buckets_ st !! n))) as [Hle | Hgt]; [left; reflexivity |].
  simpl. destruct (decide (i = n)) as [-> | Hne].
  - destruct (decide (n < length (Dense.buckets_ st))%nat) as [Hlt | Hge].
    + right. rewrite list_lookup_insert_eq by exact Hlt. simpl. auto.
    + left. rewrite list_insert_ge by lia. reflexivity.
  - left. rewrite list_lookup_insert_ne by congruence. reflexivity.
Qed.

Lemma Dense_run_adds_reg_mono (hs : list Z) : forall st i,
  DenseRun.reg st i <= DenseRun.reg (DenseRun.run_adds st hs) i.
Proof.
  unfold DenseRun.run_adds.
  induction hs as [| h hs IH]; intros st i; simpl; [lia |].
  specialize (IH (Dense.AddElem st h) i).
  destruct (Dense_AddElem_reg st h i) as [E | [E _]]; lia.
Qed.

Lemma Get_congr (st : Presto.HyperLogLogPresto) (j k : Z) :
  Z.to_nat j = Z.to_nat k -> Presto.GetBucketValue st j = Presto.GetBucketValue st k.
Proof. intros E. unfold Presto.GetBucketValue. rewrite E. reflexivity. Qed.

Lemma rmo_bounds (p h : Z) : 0 <= p <= 64 -> 0 <= Presto.PositionOfRightMostOne p h <= 64 - p.
Proof.
  intros Hp. unfold Presto.PositionOfRightMostOne.
  destruct (prmo_loop_spec p h (Z.to_nat (64 - p)) 0 ltac:(lia) ltac:(lia)) as [[_ ->] | [Hr _]]; lia.
Qed.

Lemma idx_bounds (p h : Z) : 0 <= p -> 0 <= Presto.ComputeBucketIndex p h < 2 ^ p.
Proof.
  intros Hp. unfold Presto.ComputeBucketIndex.
  destruct (cbi_loop_spec h (Z.to_nat p) 0 0 ltac:(lia) ltac:(simpl; lia)) as [Hr _].
  rewrite Z2Nat.id in Hr by lia. exact Hr.
Qed.

Lemma inv_overflow_high (st : Presto.HyperLogLogPresto) (i ov : Z) :
  PrestoRun.inv st -> Presto.overflow_bucket_ st !! Z.to_nat i = Some ov ->
  16 <= Presto.GetBucketValue st i.
Proof.
  intros (_ & _ & Hd & Ho & _) Hov. unfold Presto.GetBucketValue, Presto.DENSE_BUCKET_SIZE.
  rewrite Hov. pose proof (Ho _ _ Hov) as Hb. rewrite Z.shiftl_mul_pow2 by lia.
  change (2 ^ 4) with 16.
  assert (Hd' : 0 <= default 0 (Presto.dense_bucket_ st !! Z.to_nat i) < 16)
    by (destruct (Presto.dense_bucket_ st !! Z.to_nat i) eqn:E; simpl; [apply (Hd _ _ E) | lia]).
  rewrite Z.mod_small by (split; [lia |]; apply Z.lt_le_trans with 80; [lia | discriminate]).
  lia.
Qed.

Lemma pow2_4ow (ow : Z) : 3 <= ow -> 128 <= 2 ^ (4 + ow).
Proof. intros Hw. change 128 with (2 ^ 7). apply Z.pow_le_mono_r; lia. Qed.

(** Writing a rank [v] larger than the register's current value reads back
    [v] and keeps the invariant. *)
Lemma Set_rank (ow : Z) (st : Presto.HyperLogLogPresto) (i v : Z) :
  3 <= ow -> PrestoRun.inv st -> 0 <= i < 2 ^ Presto.n_leading_bits_ st -> 0 <= v <= 64 ->
  Presto.GetBucketValue st i < v ->
  Presto.GetBucketValue (Presto.SetBucketValue ow st i v) i = v /\
  PrestoRun.inv (Presto.SetBucketValue ow st i v).
Proof.
  intros Hw Hinv Hi Hv Hlt. pose proof Hinv as (Hp & Hlen & Hd & Ho & Hg).
  pose proof (pow2_4ow ow Hw) as H128.
  assert (Hil : (Z.to_nat i < length (Presto.dense_bucket_ st))%nat) by (rewrite Hlen; lia).
  assert (Hread : Presto.GetBucketValue (Presto.SetBucketValue ow st i v) i = v).
  { rewrite Get_Set_same by exact Hil. rewrite shiftr4_pos by lia.
    destruct (Z.ltb_spec v 16) as [Hs | Hs].
    - destruct (Presto.overflow_bucket_ st !! Z.to_nat i) as [ov |] eqn:Hov.
      + pose proof (inv_overflow_high st i ov Hinv Hov). lia.
      + apply land15_small. lia.
    - rewrite recombine by lia. apply Z.mod_small. lia. }
  split; [exact Hread |].
  destruct (Set_fields ow st i v) as [Hd' [Ho' [Hp' _]]].
  split; [rewrite Hp'; exact Hp |]. split; [rewrite Hp', Hd', length_insert; exact Hlen |].
  split; [| split].
  - intros j d. rewrite Hd'. destruct (decide (j = Z.to_nat i)) as [-> | Hne].
    + rewrite list_lookup_insert_eq by exact Hil. intros E. injection E as <-.
      change 15 with (Z.ones 4). rewrite Z.land_ones by lia.
      apply Z.mod_pos_bound. reflexivity.
    + rewrite list_lookup_insert_ne by congruence. apply Hd.
  - intros j ov. rewrite Ho'. rewrite shiftr4_pos by lia.
    destruct (Z.ltb_spec v 16) as [Hs | Hs]; [apply Ho |].
    destruct (decide (j = Z.to_nat i)) as [-> | Hne].
    + rewrite lookup_insert_eq. intros E. injection E as <-.
      rewrite Z.shiftr_div_pow2 by lia. change (2 ^ 4) with 16.
      assert (1 <= v / 16 <= 4).
      { split; [apply Z.div_le_lower_bound | apply Z.div_le_upper_bound]; lia. }
      rewrite Z.mod_small; [lia |]. split; [lia |].
      apply Z.lt_le_trans with (2 ^ 3); [lia | apply Z.pow_le_mono_r; lia].
    + rewrite lookup_insert_ne by congruence. apply Ho.
  - intros j. destruct (decide (Z.to_nat j = Z.to_nat i)) as [E | Hne].
    + rewrite (Get_congr _ j i E), Hread. lia.
    + rewrite Get_Set_other by exact Hne. apply Hg.
Qed.

Lemma repeat_lookup_0 (k : nat) (j : nat) (d : Z) : repeat 0 k !! j = Some d -> d = 0.
Proof.
  intros E. apply list_elem_of_lookup_2 in E. apply list_elem_of_In in E.
  apply repeat_spec in E. exact E.
Qed.

Lemma Presto_ctor_inv_holds (n : Z) (st : Presto.HyperLogLogPresto) :
  Presto.ctor n = Some st -> PrestoRun.inv st.
Proof.
  intros Hc. destruct (Presto_ctor_inv n st Hc) as (Hp & _ & Hd & Ho & _).
  split; [exact Hp |]. split; [rewrite Hd; apply repeat_length |]. split; [| split].
  - intros j d. rewrite Hd. intros E. rewrite (repeat_lookup_0 _ _ _ E). lia.
  - intros j ov. rewrite Ho, lookup_empty. discriminate.
  - intros j. unfold Presto.GetBucketValue. rewrite Ho, lookup_empty, Hd.
    destruct (repeat 0 _ !! Z.to_nat j) as [d |] eqn:E; simpl; [rewrite (repeat_lookup_0 _ _ _ E) |]; lia.
Qed.

Lemma Presto_AddElem_step (ow : Z) (st : Presto.HyperLogLogPresto) (h : Z) :
  3 <= ow -> PrestoRun.inv st ->
  PrestoRun.inv (Presto.AddElem ow st h) /\
  forall i : nat,
    PrestoRun.reg (Presto.AddElem ow st h) i = PrestoRun.reg st i \/
    (PrestoRun.reg st i < PrestoRun.reg (Presto.AddElem ow st h) i /\
     PrestoRun.reg (Presto.AddElem ow st h) i = Presto.PositionOfRightMostOne (Presto.n_leading_bits_ st) h /\
     i = Z.to_nat (Presto.ComputeBucketIndex (Presto.n_leading_bits_ st) h)).
Proof.
  intros Hw Hinv. pose proof Hinv as (Hp & _).
  unfold Presto.AddElem, PrestoRun.reg.
  set (idx := Presto.ComputeBucketIndex (Presto.n_leading_bits_ st) h).
  set (rmo := Presto.PositionOfRightMostOne (Presto.n_leading_bits_ st) h).
  pose proof (idx_bounds (Presto.n_leading_bits_ st) h ltac:(lia)) as Hidx.
  pose proof (rmo_bounds (Presto.n_leading_bits_ st) h ltac:(lia)) as Hrmo.
  fold idx in Hidx. fold rmo in Hrmo.
  destruct (Z.ltb_spec (Presto.GetBucketValue st idx) rmo) as [Hlt | Hge].
  - destruct (Set_rank ow st idx rmo Hw Hinv Hidx ltac:(lia) Hlt) as [Hread Hinv'].
    split; [exact Hinv' |]. intros i.
    destruct (decide (i = Z.to_nat idx)) as [-> | Hne].
    + right. rewrite Z2Nat.id by lia. rewrite Hread. auto.
    + left. apply Get_Set_other. rewrite Nat2Z.id. exact Hne.
  - split; [exact Hinv |]. intros i. left. reflexivity.
Qed.

Lemma Presto_run_adds_mono (ow : Z) (hs : list Z) : 3 <= ow -> forall st,
  PrestoRun.inv st ->
  PrestoRun.inv (PrestoRun.run_adds ow st hs) /\
  forall i, PrestoRun.reg st i <= PrestoRun.reg (PrestoRun.run_adds ow st hs) i.
Proof.
  intros Hw. unfold PrestoRun.run_adds.
  induction hs as [| h hs IH]; intros st Hinv; simpl; [split; [exact Hinv | lia] |].
  destruct (Presto_AddElem_step ow st h Hw Hinv) as [Hinv' Hreg].
  destruct (IH _ Hinv') as [Hinv'' Hmono]. split; [exact Hinv'' |].
  intros i. specialize (Hmono i). destruct (Hreg i) as [E | [E _]]; lia.
Qed.

(** C4: from a freshly constructed estimator, along any sequence of
    [AddElem] calls no register decreases, and each [AddElem] either leaves
    a register unchanged or overwrites it (its own bucket) with a strictly
    greater rank; for the compact estimator the register is the combined
    [GetBucketValue], for an overflow width [ow >= 3] (rank 64 fits). *)
Theorem C4_registers_monotone (ow n : Z) (hs1 hs2 : list Z) (h : Z) :
  3 <= ow ->
  (forall st0, Dense.ctor n = Some st0 ->
     (forall i, DenseRun.reg (DenseRun.run_adds st0 hs1) i <=
                DenseRun.reg (DenseRun.run_adds st0 (hs1 ++ hs2)) i) /\
     (forall i,
        DenseRun.reg (Dense.AddElem (DenseRun.run_adds st0 hs1) h) i = DenseRun.reg (DenseRun.run_adds st0 hs1) i \/
        (DenseRun.reg (DenseRun.run_adds st0 hs1) i < DenseRun.reg (Dense.AddElem (DenseRun.run_adds st0 hs1) h) i /\
         DenseRun.reg (Dense.AddElem (DenseRun.run_adds st0 hs1) h) i =
           Dense.PositionOfLeftmostOne (Dense.n_bits_ (DenseRun.run_adds st0 hs1)) h))) /\
  (forall st0, Presto.ctor n = Some st0 ->
     (forall i, PrestoRun.reg (PrestoRun.run_adds ow st0 hs1) i <=
                PrestoRun.reg (PrestoRun.run_adds ow st0 (hs1 ++ hs2)) i) /\
     (forall i,
        PrestoRun.reg (Presto.AddElem ow (PrestoRun.run_adds ow st0 hs1) h) i = PrestoRun.reg (PrestoRun.run_adds ow st0 hs1) i \/
        (PrestoRun.reg (PrestoRun.run_adds ow st0 hs1) i < PrestoRun.reg (Presto.AddElem ow (PrestoRun.run_adds ow st0 hs1) h) i /\
         PrestoRun.reg (Presto.AddElem ow (PrestoRun.run_adds ow st0 hs1) h) i =
           Presto.PositionOfRightMostOne (Presto.n_leading_bits_ (PrestoRun.run_adds ow st0 hs1)) h))).
Proof.
  intros Hw. split.
  - intros st0 _. split.
    + intros i. unfold DenseRun.run_adds at 2. rewrite fold_left_app.
      apply Dense_run_adds_reg_mono.
    + intros i. destruct (Dense_AddElem_reg (DenseRun.run_adds st0 hs1) h i) as [E | (E1 & E2 & _)]; auto.
  - intros st0 Hc. pose proof (Presto_ctor_inv_holds n st0 Hc) as Hinv0.
    destruct (Presto_run_adds_mono ow hs1 Hw st0 Hinv0) as [Hinv1 _]. split.
    + intros i. unfold PrestoRun.run_adds at 2. rewrite fold_left_app.
      apply (Presto_run_adds_mono ow hs2 Hw _ Hinv1).
    + intros i. destruct (Presto_AddElem_step ow _ h Hw Hinv1) as [_ Hreg].
      destruct (Hreg i) as [E | (E1 & E2 & _)]; auto.
Qed.

Lemma C4_registers_monotone_witness :
  3 <= 3 /\ Dense.ctor 1 = Some (Dense.mkHLL 1 [0; 0] 0) /\ Presto.ctor 1 = Some (Presto.mkP 1 [0; 0] empty 0) /\
  (forall i, DenseRun.reg (DenseRun.run_adds (Dense.mkHLL 1 [0; 0] 0) [2 ^ 20]) i <=
             DenseRun.reg (DenseRun.run_adds (Dense.mkHLL 1 [0; 0] 0) ([2 ^ 20] ++ [2 ^ 62])) i) /\
  (forall i, PrestoRun.reg (PrestoRun.run_adds 3 (Presto.mkP 1 [0; 0] empty 0) [2 ^ 20]) i <=
             PrestoRun.reg (PrestoRun.run_adds 3 (Presto.mkP 1 [0; 0] empty 0) ([2 ^ 20] ++ [2 ^ 62])) i).
Proof.
  destruct (C4_registers_monotone 3 1 [2 ^ 20] [2 ^ 62] 7 ltac:(lia)) as [Hd Hp].
  split; [lia |]. split; [reflexivity |]. split; [reflexivity |]. split.
  - exact (proj1 (Hd (Dense.mkHLL 1 [0; 0] 0) eq_refl)).
  - exact (proj1 (Hp (Presto.mkP 1 [0; 0] empty 0) eq_refl)).
Defined.

(** ** Stored cardinality *)

Section CardinalityProofs.
Context `{DoubleOps}.

Lemma Dense_AddElem_cardinality (st : Dense.HyperLogLog) (h : Z) :
  Dense.cardinality_ (Dense.AddElem st h) = Dense.cardinality_ st.
Proof. unfold Dense.AddElem. destruct (_ <=? _); reflexivity. Qed.

Lemma Presto_AddElem_cardinality (ow : Z) (st : Presto.HyperLogLogPresto) (h : Z) :
  Presto.cardinality_ (Presto.AddElem ow st h) = Presto.cardinality_ st.
Proof.
  unfold Presto.AddElem. destruct (_ <? _); [| reflexivity].
  apply (Set_fields ow st).
Qed.

Lemma Dense_ComputeCardinality_cardinality (st : Dense.HyperLogLog) :
  Dense.ComputeCardinality st = st \/
  (Dense.cardinality_ st < Dense.cardinality_ (Dense.ComputeCardinality st) /\
   Dense.cardinality_ (Dense.ComputeCardinality st) =
     dest (Z.of_nat (length (Dense.buckets_ st))) (Dense.bucket_sum (Dense.buckets_ st)) /\
   Dense.buckets_ (Dense.ComputeCardinality st) = Dense.buckets_ st).
Proof.
  unfold Dense.ComputeCardinality.
  destruct (dle0 _); [left; reflexivity |].
  destruct (Z.leb_spec (dest (Z.of_nat (length (Dense.buckets_ st))) (Dense.bucket_sum (Dense.buckets_ st)))
              (Dense.cardinality_ st)); [left; reflexivity |].
  right. simpl. auto.
Qed.

Lemma Presto_ComputeCardinality_cardinality (st : Presto.HyperLogLogPresto) :
  Presto.ComputeCardinality st = st \/
  (Presto.cardinality_ st < Presto.cardinality_ (Presto.ComputeCardinality st) /\
   Presto.cardinality_ (Presto.ComputeCardinality st) = Presto.CalCardinality st (Presto.CalBucketSum st) /\
   Presto.dense_bucket_ (Presto.ComputeCardinality st) = Presto.dense_bucket_ st /\
   Presto.overflow_bucket_ (Presto.ComputeCardinality st) = Presto.overflow_bucket_ st).
Proof.
  unfold Presto.ComputeCardinality.
  destruct (Z.leb_spec (Presto.CalCardinality st (Presto.CalBucketSum st)) (Presto.cardinality_ st));
    [left; reflexivity |].
  right. simpl. auto.
Qed.

Lemma Dense_step_cardinality (st : Dense.HyperLogLog) (o : op) :
  Dense.cardinality_ st <= Dense.cardinality_ (DenseRun.step st o).
Proof.
  destruct o as [h |]; simpl.
  - rewrite Dense_AddElem_cardinality. lia.
  - destruct (Dense_ComputeCardinality_cardinality st) as [-> | [Hlt _]]; lia.
Qed.

Lemma Presto_step_cardinality (ow : Z) (st : Presto.HyperLogLogPresto) (o : op) :
  Presto.cardinality_ st <= Presto.cardinality_ (PrestoRun.step ow st o).
Proof.
  destruct o as [h |]; simpl.
  - rewrite Presto_AddElem_cardinality. lia.
  - destruct (Presto_ComputeCardinality_cardinality st) as [-> | [Hlt _]]; lia.
Qed.

Lemma Dense_run_cardinality (os : list op) : forall st,
  Dense.cardinality_ st <= Dense.cardinality_ (DenseRun.run st os).
Proof.
  unfold DenseRun.run. induction os as [| o os IH]; intros st; simpl; [lia |].
  specialize (IH (DenseRun.step st o)). pose proof (Dense_step_cardinality st o). lia.
Qed.

Lemma Presto_run_cardinality (ow : Z) (os : list op) : forall st,
  Presto.cardinality_ st <= Presto.cardinality_ (PrestoRun.run ow st os).
Proof.
  unfold PrestoRun.run. induction os as [| o os IH]; intros st; simpl; [lia |].
  specialize (IH (PrestoRun.step ow st o)). pose proof (Presto_step_cardinality ow st o). lia.
Qed.

End CardinalityProofs.

(** C5: along any sequence of [AddElem] and [ComputeCardinality] calls the
    stored cardinality never decreases; [AddElem] never changes it and
    [ComputeCardinality] either leaves it or replaces it by a strictly
    greater freshly computed estimate, for both estimators. *)
Theorem C5_cardinality_monotone `{DoubleOps} (ow : Z) :
  (forall st os1 os2,
     Dense.cardinality_ (DenseRun.run st os1) <= Dense.cardinality_ (DenseRun.run st (os1 ++ os2))) /\
  (forall st h, Dense.cardinality_ (Dense.AddElem st h) = Dense.cardinality_ st) /\
  (forall st,
     Dense.cardinality_ (Dense.ComputeCardinality st) = Dense.cardinality_ st \/
     (Dense.cardinality_ st < Dense.cardinality_ (Dense.ComputeCardinality st) /\
      Dense.cardinality_ (Dense.ComputeCardinality st) =
        dest (Z.of_nat (length (Dense.buckets_ st))) (Dense.bucket_sum (Dense.buckets_ st)))) /\
  (forall st os1 os2,
     Presto.cardinality_ (PrestoRun.run ow st os1) <= Presto.cardinality_ (PrestoRun.run ow st (os1 ++ os2))) /\
  (forall st h, Presto.cardinality_ (Presto.AddElem ow st h) = Presto.cardinality_ st) /\
  (forall st,
     Presto.cardinality_ (Presto.ComputeCardinality st) = Presto.cardinality_ st \/
     (Presto.cardinality_ st < Presto.cardinality_ (Presto.ComputeCardinality st) /\
      Presto.cardinality_ (Presto.ComputeCardinality st) = Presto.CalCardinality st (Presto.CalBucketSum st))).
Proof.
  split; [| split; [| split; [| split; [| split]]]].
  - intros st os1 os2. unfold DenseRun.run at 2. rewrite fold_left_app. apply Dense_run_cardinality.
  - apply Dense_AddElem_cardinality.
  - intros st. destruct (Dense_ComputeCardinality_cardinality st) as [-> | (E1 & E2 & _)]; auto.
  - intros st os1 os2. unfold PrestoRun.run at 2. rewrite fold_left_app. apply Presto_run_cardinality.
  - apply Presto_AddElem_cardinality.
  - intros st. destruct (Presto_ComputeCardinality_cardinality st) as [-> | (E1 & E2 & _)]; auto.
Qed.

(** ** Positivity of the compact estimator's register sum *)

Section SumProofs.
Context `{DoubleLaws}.

Lemma fold_sum_pos {A} (f : A -> dbl) (l : list A) : forall s,
  dnonneg s -> (forall x, In x l -> dpos (f x)) ->
  dnonneg (fold_left (fun s x => dadd s (f x)) l s) /\
  (l <> [] -> dpos (fold_left (fun s x => dadd s (f x)) l s)).
Proof.
  induction l as [| x l IH]; intros s Hs Hf; simpl.
  - split; [exact Hs | congruence].
  - assert (Hs' : dpos (dadd s (f x))) by (apply dadd_pos; [exact Hs | apply Hf; left; reflexivity]).
    destruct (IH (dadd s (f x)) (dpos_nonneg _ Hs') ltac:(intros y Hy; apply Hf; right; exact Hy))
      as [Hn Hp].
    split; [exact Hn |]. intros _. destruct l as [| y l']; [exact Hs' | apply Hp; discriminate].
Qed.

Lemma Presto_ComputeCardinality_inv (st : Presto.HyperLogLogPresto) :
  PrestoRun.inv st -> PrestoRun.inv (Presto.ComputeCardinality st).
Proof.
  intros Hinv. destruct (Presto_ComputeCardinality_cardinality st) as [-> | _]; [exact Hinv |].
  unfold Presto.ComputeCardinality. destruct (_ <=? _); [exact Hinv |]. exact Hinv.
Qed.

Lemma Presto_run_inv (ow : Z) (os : list op) : 3 <= ow -> forall st,
  PrestoRun.inv st -> PrestoRun.inv (PrestoRun.run ow st os).
Proof.
  intros Hw. unfold PrestoRun.run. induction os as [| o os IH]; intros st Hinv; simpl; [exact Hinv |].
  apply IH. destruct o as [h |]; simpl.
  - apply (Presto_AddElem_step ow st h Hw Hinv).
  - apply Presto_ComputeCardinality_inv. exact Hinv.
Qed.

Lemma inv_sum_pos (st : Presto.HyperLogLogPresto) :
  PrestoRun.inv st ->
  (forall i : nat, dpos (dinvpow2 (Presto.GetBucketValue st (Z.of_nat i)))) /\
  dpos (Presto.CalBucketSum st).
Proof.
  intros Hinv. pose proof Hinv as (Hp & Hlen & _ & _ & Hg).
  assert (Hterm : forall i : nat, dpos (dinvpow2 (Presto.GetBucketValue st (Z.of_nat i))))
    by (intros i; apply dinvpow2_pos; apply Hg).
  split; [exact Hterm |]. unfold Presto.CalBucketSum.
  destruct (fold_sum_pos (fun i => dinvpow2 (Presto.GetBucketValue st (Z.of_nat i)))
              (seq 0 (length (Presto.dense_bucket_ st))) dzero dzero_nonneg
              ltac:(intros x _; apply Hterm)) as [_ Hpos].
  apply Hpos. rewrite Hlen. pose proof (pow2_bounds _ Hp).
  destruct (Z.to_nat (2 ^ Presto.n_leading_bits_ st)) eqn:E; [lia | discriminate].
Qed.

End SumProofs.

Lemma QDouble_laws : @DoubleLaws QDouble.
Proof.
  split; simpl.
  - apply Qle_refl.
  - intros v Hv. unfold Qinvpow2.
    destruct (Z.leb_spec 0 v); [| lia]. destruct (Z.ltb_spec v 1075); [| lia].
    simpl. unfold Qlt. simpl. lia.
  - intros s t Hs Ht. apply Qlt_le_trans with (0 + t)%Q.
    + rewrite Qplus_0_l. exact Ht.
    + apply Qplus_le_compat; [exact Hs | apply Qle_refl].
  - intros s Hs. apply Qlt_le_weak. exact Hs.
  - intros s Hs. destruct (Qle_bool s 0) eqn:E; [| reflexivity].
    apply Qle_bool_iff in E. exfalso. exact (Qlt_not_le _ _ Hs E).
Qed.

(** C10: in every state of the compact estimator reachable from
    construction by [AddElem] (and [ComputeCardinality]) calls, every
    summand [1.0 / pow(2, GetBucketValue(i))] is positive and [CalBucketSum]
    is strictly positive, so [CalCardinality] never divides by a
    non-positive sum; overflow width [ow >= 3]. *)
Theorem C10_bucket_sum_positive `{DoubleLaws} (ow n : Z) (os : list op) (st0 : Presto.HyperLogLogPresto) :
  3 <= ow -> Presto.ctor n = Some st0 ->
  (forall i : nat, dpos (dinvpow2 (Presto.GetBucketValue (PrestoRun.run ow st0 os) (Z.of_nat i)))) /\
  dpos (Presto.CalBucketSum (PrestoRun.run ow st0 os)).
Proof.
  intros Hw Hc. apply inv_sum_pos.
  apply (Presto_run_inv ow os Hw). exact (Presto_ctor_inv_holds n st0 Hc).
Qed.

Lemma C10_bucket_sum_positive_witness :
  3 <= 3 /\ Presto.ctor 2 = Some (Presto.mkP 2 [0; 0; 0; 0] empty 0) /\
  Qlt (0 # 1) (Presto.CalBucketSum (PrestoRun.run 3 (Presto.mkP 2 [0; 0; 0; 0] empty 0) [OpAdd (2 ^ 30); OpCompute])).
Proof.
  split; [lia |]. split; [reflexivity |].
  exact (proj2 (@C10_bucket_sum_positive QDouble QDouble_laws 3 2 [OpAdd (2 ^ 30); OpCompute]
                  (Presto.mkP 2 [0; 0; 0; 0] empty 0) ltac:(lia) eq_refl)).
Defined.

(** C3: the dense [ComputeCardinality] returns the state unchanged whenever
    its sum is [<= 0]; the compact one has no such guard, but in every state
    reachable from construction its sum is never [<= 0], so it too never
    updates on a non-positive sum. *)
Theorem C3_no_update_on_nonpositive_sum `{DoubleLaws} (ow n : Z) (os : list op) :
  3 <= ow ->
  (forall st, dle0 (Dense.bucket_sum (Dense.buckets_ st)) = true -> Dense.ComputeCardinality st = st) /\
  (forall st0, Presto.ctor n = Some st0 ->
     dle0 (Presto.CalBucketSum (PrestoRun.run ow st0 os)) = false /\
     (dle0 (Presto.CalBucketSum (PrestoRun.run ow st0 os)) = true ->
        Presto.ComputeCardinality (PrestoRun.run ow st0 os) = PrestoRun.run ow st0 os)).
Proof.
  intros Hw. split.
  - intros st Hle. unfold Dense.ComputeCardinality. rewrite Hle. reflexivity.
  - intros st0 Hc.
    assert (Hf : dle0 (Presto.CalBucketSum (PrestoRun.run ow st0 os)) = false).
    { apply dpos_not_le0. apply inv_sum_pos.
      apply (Presto_run_inv ow os Hw). exact (Presto_ctor_inv_holds n st0 Hc). }
    split; [exact Hf |]. intros Ht. congruence.
Qed.

Lemma C3_no_update_on_nonpositive_sum_witness :
  3 <= 3 /\
  Qle_bool (Dense.bucket_sum (Dense.buckets_ (Dense.mkHLL 0 [2000] 0))) (0 # 1) = true /\
  Dense.ComputeCardinality (Dense.mkHLL 0 [2000] 0) = Dense.mkHLL 0 [2000] 0 /\
  Presto.ctor 0 = Some (Presto.mkP 0 [0] empty 0) /\
  Qle_bool (Presto.CalBucketSum (PrestoRun.run 3 (Presto.mkP 0 [0] empty 0) [OpAdd 1; OpCompute])) (0 # 1) = false.
Proof.
  destruct (@C3_no_update_on_nonpositive_sum QDouble QDouble_laws 3 0 [OpAdd 1; OpCompute] ltac:(lia))
    as [Hd Hp].
  split; [lia |]. split; [reflexivity |]. split; [apply Hd; reflexivity |].
  split; [reflexivity |]. exact (proj1 (Hp (Presto.mkP 0 [0] empty 0) eq_refl)).
Defined.

(** * Further properties of the estimators *)

(** ** How [AddElem] calls compose *)

Lemma Dense_idx_bounds (p h : Z) : 0 <= p -> 0 <= Dense.ComputeBucket p h < 2 ^ p.
Proof.
  intros Hp. unfold Dense.ComputeBucket. rewrite cb_loop_cbi_loop. apply (idx_bounds p h Hp).
Qed.

Lemma plo_bounds (p h : Z) : 0 <= p <= 64 -> 0 <= Dense.PositionOfLeftmostOne p h <= 64 - p.
Proof.
  intros Hp. unfold Dense.PositionOfLeftmostOne.
  destruct (plo_loop_spec p h (Z.to_nat (64 - p)) p ltac:(lia) ltac:(lia)) as [[_ ->] | [Hr _]]; lia.
Qed.

Lemma Dense_AddElem_length (st : Dense.HyperLogLog) (h : Z) :
  length (Dense.buckets_ (Dense.AddElem st h)) = length (Dense.buckets_ st).
Proof. unfold Dense.AddElem. destruct (_ <=? _); [reflexivity | apply length_insert]. Qed.

Lemma Dense_AddElem_reg_eq (st : Dense.HyperLogLog) (h : Z) (i : nat) :
  0 <= Dense.n_bits_ st -> length (Dense.buckets_ st) = Z.to_nat (2 ^ Dense.n_bits_ st) ->
  DenseRun.reg (Dense.AddElem st h) i =
    rank_step (Dense.ComputeBucket (Dense.n_bits_ st)) (Dense.PositionOfLeftmostOne (Dense.n_bits_ st))
      i (DenseRun.reg st i) h.
Proof.
  intros Hp Hlen. pose proof (Dense_idx_bounds (Dense.n_bits_ st) h Hp) as Hidx.
  unfold Dense.AddElem, DenseRun.reg, rank_step.
  set (n := Dense.ComputeBucket (Dense.n_bits_ st) h) in *.
  set (lmo := Dense.PositionOfLeftmostOne (Dense.n_bits_ st) h).
  assert (Hn : (Z.to_nat n < length (Dense.buckets_ st))%nat) by (rewrite Hlen; lia).
  destruct (Nat.eqb_spec (Z.to_nat n) i) as [<- | Hne].
  - destruct (Z.leb_spec lmo (default 0 (Dense.buckets_ st !! Z.to_nat n))); [lia |].
    simpl. rewrite list_lookup_insert_eq by exact Hn. simpl. lia.
  - destruct (_ <=? _); [reflexivity |]. simpl. rewrite list_lookup_insert_ne by congruence. reflexivity.
Qed.

Lemma Dense_run_adds_reg (hs : list Z) (i : nat) : forall st,
  0 <= Dense.n_bits_ st -> length (Dense.buckets_ st) = Z.to_nat (2 ^ Dense.n_bits_ st) ->
  DenseRun.reg (DenseRun.run_adds st hs) i =
    fold_left (rank_step (Dense.ComputeBucket (Dense.n_bits_ st)) (Dense.PositionOfLeftmostOne (Dense.n_bits_ st)) i)
      hs (DenseRun.reg st i).
Proof.
  unfold DenseRun.run_adds. induction hs as [| h hs IH]; intros st Hp Hlen; simpl; [reflexivity |].
  rewrite IH; rewrite ?Dense_AddElem_n_bits, ?Dense_AddElem_length; try assumption.
  rewrite Dense_AddElem_reg_eq by assumption. reflexivity.
Qed.

Lemma Dense_run_adds_length (hs : list Z) : forall st,
  length (Dense.buckets_ (DenseRun.run_adds st hs)) = length (Dense.buckets_ st).
Proof.
  unfold DenseRun.run_adds. induction hs as [| h hs IH]; intros st; simpl; [reflexivity |].
  rewrite IH. apply Dense_AddElem_length.
Qed.

Lemma Dense_run_adds_cardinality (hs : list Z) : forall st,
  Dense.cardinality_ (DenseRun.run_adds st hs) = Dense.cardinality_ st.
Proof.
  unfold DenseRun.run_adds. induction hs as [| h hs IH]; intros st; simpl; [reflexivity |].
  rewrite IH. unfold Dense.AddElem. destruct (_ <=? _); reflexivity.
Qed.

Lemma repeat_reg_0 (k i : nat) : default 0 (repeat 0 k !! i) = 0.
Proof. destruct (repeat 0 k !! i) as [d |] eqn:E; [apply (repeat_lookup_0 _ _ _ E) | reflexivity]. Qed.

(** X1: from construction, after any sequence of [AddElem] calls, dense
    register [i] holds the largest [PositionOfLeftmostOne] rank among the
    added hashes whose [ComputeBucket] index is [i], and 0 if there is none. *)
Theorem Dense_registers_max_rank (n : Z) (st0 : Dense.HyperLogLog) (hs : list Z) (i : nat) :
  Dense.ctor n = Some st0 ->
  DenseRun.reg (DenseRun.run_adds st0 hs) i =
    max_rank (Dense.ComputeBucket (Dense.n_bits_ st0)) (Dense.PositionOfLeftmostOne (Dense.n_bits_ st0)) hs i.
Proof.
  intros Hc. destruct (Dense_ctor_inv n st0 Hc) as (Hp & _ & Hb & _).
  rewrite Dense_run_adds_reg by (try lia; rewrite Hb; apply repeat_length).
  unfold DenseRun.reg. rewrite Hb, repeat_reg_0. reflexivity.
Qed.

Lemma Dense_registers_max_rank_witness :
  Dense.ctor 1 = Some (Dense.mkHLL 1 [0; 0] 0) /\
  DenseRun.reg (DenseRun.run_adds (Dense.mkHLL 1 [0; 0] 0) [2 ^ 40; 2 ^ 61; 2 ^ 63 + 2 ^ 50]) 0 =
    max_rank (Dense.ComputeBucket 1) (Dense.PositionOfLeftmostOne 1) [2 ^ 40; 2 ^ 61; 2 ^ 63 + 2 ^ 50] 0.
Proof.
  split; [reflexivity |].
  exact (Dense_registers_max_rank 1 (Dense.mkHLL 1 [0; 0] 0) [2 ^ 40; 2 ^ 61; 2 ^ 63 + 2 ^ 50] 0 eq_refl).
Defined.

Example Dense_registers_max_rank_value :
  DenseRun.reg (DenseRun.run_adds (Dense.mkHLL 1 [0; 0] 0) [2 ^ 40; 2 ^ 61; 2 ^ 63 + 2 ^ 50]) 0 = 23.
Proof. vm_compute. reflexivity. Qed.

Lemma rank_step_swap (idx rank : Z -> Z) (i : nat) (acc x y : Z) :
  rank_step idx rank i (rank_step idx rank i acc x) y = rank_step idx rank i (rank_step idx rank i acc y) x.
Proof.
  unfold rank_step.
  destruct (Nat.eqb (Z.to_nat (idx x)) i), (Nat.eqb (Z.to_nat (idx y)) i); lia.
Qed.

Lemma fold_rank_step_perm (idx rank : Z -> Z) (i : nat) (hs1 hs2 : list Z) :
  Permutation hs1 hs2 -> forall acc,
  fold_left (rank_step idx rank i) hs1 acc = fold_left (rank_step idx rank i) hs2 acc.
Proof.
  induction 1 as [| x l1 l2 _ IH | x y l | l1 l2 l3 _ IH1 _ IH2]; intros acc; simpl.
  - reflexivity.
  - apply IH.
  - rewrite rank_step_swap. reflexivity.
  - rewrite IH1. apply IH2.
Qed.

(** X3: from construction, two sequences of [AddElem] calls that add the
    same hashes in a different order leave the dense estimator in the very
    same state. *)
Theorem Dense_run_adds_order_independent (n : Z) (st0 : Dense.HyperLogLog) (hs1 hs2 : list Z) :
  Dense.ctor n = Some st0 -> Permutation hs1 hs2 ->
  DenseRun.run_adds st0 hs1 = DenseRun.run_adds st0 hs2.
Proof.
  intros Hc Hperm.
  assert (Hreg : forall i, DenseRun.reg (DenseRun.run_adds st0 hs1) i = DenseRun.reg (DenseRun.run_adds st0 hs2) i).
  { intros i. destruct (Dense_ctor_inv n st0 Hc) as (Hp & _ & Hb0 & _).
    rewrite !Dense_run_adds_reg by (try lia; rewrite Hb0; apply repeat_length).
    apply fold_rank_step_perm. exact Hperm. }
  assert (Hb : Dense.buckets_ (DenseRun.run_adds st0 hs1) = Dense.buckets_ (DenseRun.run_adds st0 hs2)).
  { apply list_eq. intros i. specialize (Hreg i). unfold DenseRun.reg in Hreg.
    destruct (decide (i < length (Dense.buckets_ st0))%nat) as [Hlt | Hge].
    - destruct (lookup_lt_is_Some_2 (Dense.buckets_ (DenseRun.run_adds st0 hs1)) i
                  ltac:(rewrite Dense_run_adds_length; exact Hlt)) as [x Hx].
      destruct (lookup_lt_is_Some_2 (Dense.buckets_ (DenseRun.run_adds st0 hs2)) i
                  ltac:(rewrite Dense_run_adds_length; exact Hlt)) as [y Hy].
      rewrite Hx, Hy in *. simpl in Hreg. congruence.
    - rewrite !lookup_ge_None_2 by (rewrite Dense_run_adds_length; lia). reflexivity. }
  destruct (DenseRun.run_adds st0 hs1) as [p1 b1 c1] eqn:E1.
  destruct (DenseRun.run_adds st0 hs2) as [p2 b2 c2] eqn:E2.
  simpl in Hb. subst b2. f_equal.
  - pose proof (Dense_run_adds_n_bits hs1 st0) as H1. pose proof (Dense_run_adds_n_bits hs2 st0) as H2.
    rewrite E1 in H1. rewrite E2 in H2. simpl in *. congruence.
  - pose proof (Dense_run_adds_cardinality hs1 st0) as H1. pose proof (Dense_run_adds_cardinality hs2 st0) as H2.
    rewrite E1 in H1. rewrite E2 in H2. simpl in *. congruence.
Qed.

Lemma Dense_run_adds_order_independent_witness :
  Dense.ctor 1 = Some (Dense.mkHLL 1 [0; 0] 0) /\ Permutation [2 ^ 40; 2 ^ 61; 5] [5; 2 ^ 61; 2 ^ 40] /\
  DenseRun.run_adds (Dense.mkHLL 1 [0; 0] 0) [2 ^ 40; 2 ^ 61; 5] =
  DenseRun.run_adds (Dense.mkHLL 1 [0; 0] 0) [5; 2 ^ 61; 2 ^ 40].
Proof.
  assert (Hp : Permutation [2 ^ 40; 2 ^ 61; 5] [5; 2 ^ 61; 2 ^ 40]).
  { apply Permutation_rev. }
  split; [reflexivity |]. split; [exact Hp |].
  exact (Dense_run_adds_order_independent 1 (Dense.mkHLL 1 [0; 0] 0) _ _ eq_refl Hp).
Defined.

Lemma Presto_AddElem_reg_eq (ow : Z) (st : Presto.HyperLogLogPresto) (h : Z) (i : nat) :
  3 <= ow -> PrestoRun.inv st ->
  PrestoRun.reg (Presto.AddElem ow st h) i =
    rank_step (Presto.ComputeBucketIndex (Presto.n_leading_bits_ st))
      (Presto.PositionOfRightMostOne (Presto.n_leading_bits_ st)) i (PrestoRun.reg st i) h.
Proof.
  intros Hw Hinv. pose proof Hinv as (Hp & _).
  unfold Presto.AddElem, PrestoRun.reg, rank_step.
  set (idx := Presto.ComputeBucketIndex (Presto.n_leading_bits_ st) h).
  set (rmo := Presto.PositionOfRightMostOne (Presto.n_leading_bits_ st) h).
  pose proof (idx_bounds (Presto.n_leading_bits_ st) h ltac:(lia)) as Hidx.
  pose proof (rmo_bounds (Presto.n_leading_bits_ st) h ltac:(lia)) as Hrmo.
  fold idx in Hidx. fold rmo in Hrmo.
  destruct (Nat.eqb_spec (Z.to_nat idx) i) as [<- | Hne].
  - rewrite Z2Nat.id by lia.
    destruct (Z.ltb_spec (Presto.GetBucketValue st idx) rmo) as [Hlt | Hge].
    + rewrite (proj1 (Set_rank ow st idx rmo Hw Hinv Hidx ltac:(lia) Hlt)). lia.
    + lia.
  - destruct (_ <? _); [| reflexivity]. apply Get_Set_other. rewrite Nat2Z.id. congruence.
Qed.

Lemma Presto_run_adds_reg (ow : Z) (hs : list Z) (i : nat) : 3 <= ow -> forall st,
  PrestoRun.inv st ->
  PrestoRun.reg (PrestoRun.run_adds ow st hs) i =
    fold_left (rank_step (Presto.ComputeBucketIndex (Presto.n_leading_bits_ st))
                 (Presto.PositionOfRightMostOne (Presto.n_leading_bits_ st)) i) hs (PrestoRun.reg st i).
Proof.
  intros Hw. unfold PrestoRun.run_adds.
  induction hs as [| h hs IH]; intros st Hinv; simpl; [reflexivity |].
  rewrite IH by (apply (Presto_AddElem_step ow st h Hw Hinv)).
  rewrite Presto_AddElem_n_leading_bits, Presto_AddElem_reg_eq by assumption. reflexivity.
Qed.

Lemma Presto_ctor_reg_0 (n : Z) (st : Presto.HyperLogLogPresto) (i : nat) :
  Presto.ctor n = Some st -> PrestoRun.reg st i = 0.
Proof.
  intros Hc. destruct (Presto_ctor_inv n st Hc) as (_ & _ & Hd & Ho & _).
  unfold PrestoRun.reg, Presto.GetBucketValue. rewrite Ho, lookup_empty, Hd. apply repeat_reg_0.
Qed.

(** X2: from construction, after any sequence of [AddElem] calls, compact
    register [i] ([GetBucketValue(i)]) holds the largest
    [PositionOfRightMostOne] rank among the added hashes whose
    [ComputeBucketIndex] is [i], and 0 if there is none (overflow width
    [ow >= 3]). *)
Theorem Presto_registers_max_rank (ow n : Z) (st0 : Presto.HyperLogLogPresto) (hs : list Z) (i : nat) :
  3 <= ow -> Presto.ctor n = Some st0 ->
  PrestoRun.reg (PrestoRun.run_adds ow st0 hs) i =
    max_rank (Presto.ComputeBucketIndex (Presto.n_leading_bits_ st0))
      (Presto.PositionOfRightMostOne (Presto.n_leading_bits_ st0)) hs i.
Proof.
  intros Hw Hc. rewrite (Presto_run_adds_reg ow hs i Hw st0 (Presto_ctor_inv_holds n st0 Hc)).
  rewrite (Presto_ctor_reg_0 n st0 i Hc). reflexivity.
Qed.

Lemma Presto_registers_max_rank_witness :
  3 <= 3 /\ Presto.ctor 1 = Some (Presto.mkP 1 [0; 0] empty 0) /\
  PrestoRun.reg (PrestoRun.run_adds 3 (Presto.mkP 1 [0; 0] empty 0) [2 ^ 20; 2 ^ 40; 2 ^ 63 + 4]) 0 =
    max_rank (Presto.ComputeBucketIndex 1) (Presto.PositionOfRightMostOne 1) [2 ^ 20; 2 ^ 40; 2 ^ 63 + 4] 0.
Proof.
  split; [lia |]. split; [reflexivity |].
  exact (Presto_registers_max_rank 3 1 (Presto.mkP 1 [0; 0] empty 0) [2 ^ 20; 2 ^ 40; 2 ^ 63 + 4] 0
           ltac:(lia) eq_refl).
Defined.

Example Presto_registers_max_rank_value :
  PrestoRun.reg (PrestoRun.run_adds 3 (Presto.mkP 1 [0; 0] empty 0) [2 ^ 20; 2 ^ 40; 2 ^ 63 + 4]) 0 = 40 /\
  PrestoRun.reg (PrestoRun.run_adds 3 (Presto.mkP 1 [0; 0] empty 0) [2 ^ 20; 2 ^ 40; 2 ^ 63 + 4]) 1 = 2.
Proof. vm_compute. split; reflexivity. Qed.

Lemma repeat_lookup_lt (k j : nat) : (j < k)%nat -> repeat 0 k !! j = Some 0.
Proof.
  intros Hj. destruct (lookup_lt_is_Some_2 (repeat 0 k) j) as [d E]; [rewrite repeat_length; exact Hj |].
  rewrite E. rewrite (repeat_lookup_0 _ _ _ E). reflexivity.
Qed.

Lemma presto_repr_ctor (n : Z) (st : Presto.HyperLogLogPresto) :
  Presto.ctor n = Some st -> presto_repr st.
Proof.
  intros Hc. pose proof (Presto_ctor_reg_0 n st) as Hr.
  destruct (Presto_ctor_inv n st Hc) as (_ & _ & Hd & Ho & _).
  intros i. rewrite (Hr i Hc), Ho, lookup_empty. split; [| reflexivity].
  intros Hi. split; [| reflexivity]. rewrite Hd in *. rewrite repeat_length in Hi.
  apply repeat_lookup_lt. exact Hi.
Qed.

Lemma Presto_AddElem_length (ow : Z) (st : Presto.HyperLogLogPresto) (h : Z) :
  length (Presto.dense_bucket_ (Presto.AddElem ow st h)) = length (Presto.dense_bucket_ st).
Proof.
  unfold Presto.AddElem. destruct (_ <? _); [| reflexivity].
  rewrite (proj1 (Set_fields ow st _ _)). apply length_insert.
Qed.

Lemma presto_repr_AddElem (ow : Z) (st : Presto.HyperLogLogPresto) (h : Z) :
  3 <= ow -> PrestoRun.inv st -> presto_repr st -> presto_repr (Presto.AddElem ow st h).
Proof.
  intros Hw Hinv Hrep. pose proof Hinv as (Hp & Hlen & _).
  pose proof (fun j => Presto_AddElem_reg_eq ow st h j Hw Hinv) as Hreg.
  intros j. rewrite Presto_AddElem_length, Hreg. unfold rank_step.
  unfold Presto.AddElem.
  set (idx := Presto.ComputeBucketIndex (Presto.n_leading_bits_ st) h) in *.
  set (rmo := Presto.PositionOfRightMostOne (Presto.n_leading_bits_ st) h) in *.
  pose proof (idx_bounds (Presto.n_leading_bits_ st) h ltac:(lia)) as Hidx.
  pose proof (rmo_bounds (Presto.n_leading_bits_ st) h ltac:(lia)) as Hrmo.
  fold idx in Hidx. fold rmo in Hrmo.
  assert (Hil : (Z.to_nat idx < length (Presto.dense_bucket_ st))%nat) by (rewrite Hlen; lia).
  destruct (Z.ltb_spec (Presto.GetBucketValue st idx) rmo) as [Hlt | Hge].
  2:{ destruct (Nat.eqb_spec (Z.to_nat idx) j) as [<- | Hne]; [| apply Hrep].
      assert (E : Z.max (PrestoRun.reg st (Z.to_nat idx)) rmo = PrestoRun.reg st (Z.to_nat idx))
        by (unfold PrestoRun.reg; rewrite Z2Nat.id by lia; lia).
      rewrite E. apply Hrep. }
  destruct (Set_fields ow st idx rmo) as (Hd & Ho & _).
  rewrite Hd, Ho, shiftr4_pos by lia.
  destruct (Nat.eqb_spec (Z.to_nat idx) j) as [<- | Hne].
  - assert (E : Z.max (PrestoRun.reg st (Z.to_nat idx)) rmo = rmo)
      by (unfold PrestoRun.reg; rewrite Z2Nat.id by lia; lia).
    rewrite E. split; [| lia]. intros _. rewrite list_lookup_insert_eq by exact Hil. split; [reflexivity |].
    destruct (Z.ltb_spec rmo 16) as [Hs | Hs].
    + destruct (proj1 (Hrep (Z.to_nat idx)) Hil) as [_ Hov]. rewrite Hov.
      unfold PrestoRun.reg. rewrite Z2Nat.id by lia.
      destruct (Z.ltb_spec (Presto.GetBucketValue st idx) 16); [reflexivity | lia].
    + rewrite lookup_insert_eq. f_equal. apply Z.mod_small.
      rewrite Z.shiftr_div_pow2 by lia. change (2 ^ 4) with 16.
      split; [apply Z.div_pos; lia |].
      apply Z.lt_le_trans with 8; [apply Z.div_lt_upper_bound; lia |].
      change 8 with (2 ^ 3). apply Z.pow_le_mono_r; lia.
  - destruct (Hrep j) as [Hin Hout]. split.
    + intros Hj. rewrite list_lookup_insert_ne by exact Hne.
      destruct (Hin Hj) as [Hdj Hoj]. split; [exact Hdj |].
      destruct (rmo <? 16); [exact Hoj |]. rewrite lookup_insert_ne by exact Hne. exact Hoj.
    + intros Hj. destruct (rmo <? 16); [apply Hout; exact Hj |].
      rewrite lookup_insert_ne by exact Hne. apply Hout. exact Hj.
Qed.

Lemma Presto_run_adds_length (ow : Z) (hs : list Z) : forall st,
  length (Presto.dense_bucket_ (PrestoRun.run_adds ow st hs)) = length (Presto.dense_bucket_ st).
Proof.
  unfold PrestoRun.run_adds. induction hs as [| h hs IH]; intros st; simpl; [reflexivity |].
  rewrite IH. apply Presto_AddElem_length.
Qed.

Lemma Presto_run_adds_cardinality (ow : Z) (hs : list Z) : forall st,
  Presto.cardinality_ (PrestoRun.run_adds ow st hs) = Presto.cardinality_ st.
Proof.
  unfold PrestoRun.run_adds. induction hs as [| h hs IH]; intros st; simpl; [reflexivity |].
  rewrite IH. unfold Presto.AddElem. destruct (_ <? _); [apply Set_fields | reflexivity].
Qed.

Lemma Presto_run_adds_repr (ow : Z) (hs : list Z) : 3 <= ow -> forall st,
  PrestoRun.inv st -> presto_repr st -> presto_repr (PrestoRun.run_adds ow st hs).
Proof.
  intros Hw. unfold PrestoRun.run_adds.
  induction hs as [| h hs IH]; intros st Hinv Hrep; simpl; [exact Hrep |].
  apply IH; [apply (Presto_AddElem_step ow st h Hw Hinv) | apply presto_repr_AddElem; assumption].
Qed.

(** Under the representation, a compact state is determined by its
    precision, its register count, its registers and its cardinality. *)
Lemma presto_repr_ext (s1 s2 : Presto.HyperLogLogPresto) :
  presto_repr s1 -> presto_repr s2 ->
  Presto.n_leading_bits_ s1 = Presto.n_leading_bits_ s2 ->
  length (Presto.dense_bucket_ s1) = length (Presto.dense_bucket_ s2) ->
  (forall i, PrestoRun.reg s1 i = PrestoRun.reg s2 i) ->
  Presto.cardinality_ s1 = Presto.cardinality_ s2 -> s1 = s2.
Proof.
  intros R1 R2 Hp Hl Hr Hc.
  assert (Hd : Presto.dense_bucket_ s1 = Presto.dense_bucket_ s2).
  { apply list_eq. intros i. destruct (decide (i < length (Presto.dense_bucket_ s1))%nat) as [Hi | Hi].
    - rewrite (proj1 (proj1 (R1 i) Hi)), (proj1 (proj1 (R2 i) ltac:(lia))), Hr. reflexivity.
    - rewrite !lookup_ge_None_2 by lia. reflexivity. }
  assert (Ho : Presto.overflow_bucket_ s1 = Presto.overflow_bucket_ s2).
  { apply map_eq. intros i. destruct (decide (i < length (Presto.dense_bucket_ s1))%nat) as [Hi | Hi].
    - rewrite (proj2 (proj1 (R1 i) Hi)), (proj2 (proj1 (R2 i) ltac:(lia))), Hr. reflexivity.
    - rewrite (proj2 (R1 i)), (proj2 (R2 i)) by lia. reflexivity. }
  destruct s1, s2. simpl in *. congruence.
Qed.

(** X4: from construction, the compact estimator's state after a sequence
    of [AddElem] calls does not depend on the order of the hashes: any
    permutation gives the same registers, overflow map and cardinality
    (overflow width [ow >= 3]). *)
Theorem Presto_run_adds_order_independent (ow n : Z) (st0 : Presto.HyperLogLogPresto) (hs1 hs2 : list Z) :
  3 <= ow -> Presto.ctor n = Some st0 -> Permutation hs1 hs2 ->
  PrestoRun.run_adds ow st0 hs1 = PrestoRun.run_adds ow st0 hs2.
Proof.
  intros Hw Hc Hperm. pose proof (Presto_ctor_inv_holds n st0 Hc) as Hinv.
  pose proof (presto_repr_ctor n st0 Hc) as Hrep.
  apply presto_repr_ext.
  - apply Presto_run_adds_repr; assumption.
  - apply Presto_run_adds_repr; assumption.
  - rewrite !Presto_run_adds_n_leading_bits. reflexivity.
  - rewrite !Presto_run_adds_length. reflexivity.
  - intros i. rewrite !(Presto_run_adds_reg ow _ i Hw st0 Hinv). apply fold_rank_step_perm. exact Hperm.
  - rewrite !Presto_run_adds_cardinality. reflexivity.
Qed.

Lemma Presto_run_adds_order_independent_witness :
  3 <= 3 /\ Presto.ctor 1 = Some (Presto.mkP 1 [0; 0] empty 0) /\
  Permutation [2 ^ 20; 2 ^ 63 + 4; 2 ^ 40] [2 ^ 40; 2 ^ 63 + 4; 2 ^ 20] /\
  PrestoRun.run_adds 3 (Presto.mkP 1 [0; 0] empty 0) [2 ^ 20; 2 ^ 63 + 4; 2 ^ 40] =
  PrestoRun.run_adds 3 (Presto.mkP 1 [0; 0] empty 0) [2 ^ 40; 2 ^ 63 + 4; 2 ^ 20].
Proof.
  assert (Hp : Permutation [2 ^ 20; 2 ^ 63 + 4; 2 ^ 40] [2 ^ 40; 2 ^ 63 + 4; 2 ^ 20]).
  { apply Permutation_rev. }
  split; [lia |]. split; [reflexivity |]. split; [exact Hp |].
  exact (Presto_run_adds_order_independent 3 1 (Presto.mkP 1 [0; 0] empty 0) _ _ ltac:(lia) eq_refl Hp).
Defined.

(** X5: [AddElem] of the same hash twice in a row has the effect of one
    call, in every state of the dense estimator. *)
Theorem Dense_AddElem_idempotent (st : Dense.HyperLogLog) (h : Z) :
  Dense.AddElem (Dense.AddElem st h) h = Dense.AddElem st h.
Proof.
  unfold Dense.AddElem at 2 3.
  destruct (_ <=? _) eqn:G; [unfold Dense.AddElem; rewrite G; reflexivity |].
  unfold Dense.AddElem. simpl. rewrite list_insert_insert_eq.
  destruct (_ <=? default 0 (<[_ := _]> _ !! _)); reflexivity.
Qed.

Lemma fold_rank_step_bounds (idx rank : Z -> Z) (i : nat) (B : Z) (hs : list Z) :
  (forall h, 0 <= rank h <= B) -> forall acc, 0 <= acc <= B ->
  0 <= fold_left (rank_step idx rank i) hs acc <= B.
Proof.
  intros Hr. induction hs as [| h hs IH]; intros acc Ha; simpl; [exact Ha |].
  apply IH. unfold rank_step. destruct (Nat.eqb _ _); [specialize (Hr h); lia | exact Ha].
Qed.

Section RunProofs.
Context `{DoubleOps}.

Lemma Dense_ComputeCardinality_fields (st : Dense.HyperLogLog) :
  Dense.n_bits_ (Dense.ComputeCardinality st) = Dense.n_bits_ st /\
  Dense.buckets_ (Dense.ComputeCardinality st) = Dense.buckets_ st.
Proof. unfold Dense.ComputeCardinality. destruct (dle0 _); [| destruct (_ <=? _)]; auto. Qed.

Lemma Presto_ComputeCardinality_fields (st : Presto.HyperLogLogPresto) :
  Presto.n_leading_bits_ (Presto.ComputeCardinality st) = Presto.n_leading_bits_ st /\
  Presto.dense_bucket_ (Presto.ComputeCardinality st) = Presto.dense_bucket_ st /\
  Presto.overflow_bucket_ (Presto.ComputeCardinality st) = Presto.overflow_bucket_ st.
Proof. unfold Presto.ComputeCardinality. destruct (_ <=? _); auto. Qed.

Lemma Dense_AddElem_congr (st st' : Dense.HyperLogLog) (h : Z) :
  Dense.n_bits_ st = Dense.n_bits_ st' -> Dense.buckets_ st = Dense.buckets_ st' ->
  Dense.n_bits_ (Dense.AddElem st h) = Dense.n_bits_ (Dense.AddElem st' h) /\
  Dense.buckets_ (Dense.AddElem st h) = Dense.buckets_ (Dense.AddElem st' h).
Proof.
  destruct st as [p b c], st' as [p' b' c']. simpl. intros <- <-.
  unfold Dense.AddElem. simpl. destruct (_ <=? _); simpl; auto.
Qed.

Lemma Presto_AddElem_congr (ow : Z) (st st' : Presto.HyperLogLogPresto) (h : Z) :
  Presto.n_leading_bits_ st = Presto.n_leading_bits_ st' ->
  Presto.dense_bucket_ st = Presto.dense_bucket_ st' ->
  Presto.overflow_bucket_ st = Presto.overflow_bucket_ st' ->
  Presto.n_leading_bits_ (Presto.AddElem ow st h) = Presto.n_leading_bits_ (Presto.AddElem ow st' h) /\
  Presto.dense_bucket_ (Presto.AddElem ow st h) = Presto.dense_bucket_ (Presto.AddElem ow st' h) /\
  Presto.overflow_bucket_ (Presto.AddElem ow st h) = Presto.overflow_bucket_ (Presto.AddElem ow st' h).
Proof.
  destruct st as [p d o c], st' as [p' d' o' c']. simpl. intros <- <- <-.
  unfold Presto.AddElem, Presto.GetBucketValue, Presto.SetBucketValue. simpl.
  destruct (_ <? _); [destruct (_ <=? _) |]; simpl; auto.
Qed.

Lemma Dense_run_adds_of (os : list op) : forall st st',
  Dense.n_bits_ st = Dense.n_bits_ st' -> Dense.buckets_ st = Dense.buckets_ st' ->
  Dense.n_bits_ (DenseRun.run st os) = Dense.n_bits_ (DenseRun.run_adds st' (adds_of os)) /\
  Dense.buckets_ (DenseRun.run st os) = Dense.buckets_ (DenseRun.run_adds st' (adds_of os)).
Proof.
  unfold DenseRun.run, DenseRun.run_adds.
  induction os as [| [h |] os IH]; intros st st' Hp Hb; simpl; [auto | |].
  - destruct (Dense_AddElem_congr st st' h Hp Hb) as [Hp' Hb']. apply IH; assumption.
  - destruct (Dense_ComputeCardinality_fields st) as [Hp' Hb'].
    apply IH; congruence.
Qed.

Lemma Presto_run_adds_of (ow : Z) (os : list op) : forall st st',
  Presto.n_leading_bits_ st = Presto.n_leading_bits_ st' ->
  Presto.dense_bucket_ st = Presto.dense_bucket_ st' ->
  Presto.overflow_bucket_ st = Presto.overflow_bucket_ st' ->
  Presto.n_leading_bits_ (PrestoRun.run ow st os) = Presto.n_leading_bits_ (PrestoRun.run_adds ow st' (adds_of os)) /\
  Presto.dense_bucket_ (PrestoRun.run ow st os) = Presto.dense_bucket_ (PrestoRun.run_adds ow st' (adds_of os)) /\
  Presto.overflow_bucket_ (PrestoRun.run ow st os) = Presto.overflow_bucket_ (PrestoRun.run_adds ow st' (adds_of os)).
Proof.
  unfold PrestoRun.run, PrestoRun.run_adds.
  induction os as [| [h |] os IH]; intros st st' Hp Hd Ho; simpl; [auto | |].
  - destruct (Presto_AddElem_congr ow st st' h Hp Hd Ho) as (Hp' & Hd' & Ho'). apply IH; assumption.
  - destruct (Presto_ComputeCardinality_fields st) as (Hp' & Hd' & Ho').
    apply IH; congruence.
Qed.

(** X6: [ComputeCardinality] calls interleaved with [AddElem] calls never
    change the dense estimator's precision or registers: after any call
    sequence they are those of the same [AddElem] calls alone. *)
Theorem Dense_run_registers_ignore_compute (st : Dense.HyperLogLog) (os : list op) :
  Dense.n_bits_ (DenseRun.run st os) = Dense.n_bits_ (DenseRun.run_adds st (adds_of os)) /\
  Dense.buckets_ (DenseRun.run st os) = Dense.buckets_ (DenseRun.run_adds st (adds_of os)).
Proof. apply Dense_run_adds_of; reflexivity. Qed.

(** X7: [ComputeCardinality] calls interleaved with [AddElem] calls never
    change the compact estimator's precision, dense fields or overflow map:
    after any call sequence they are those of the same [AddElem] calls
    alone. *)
Theorem Presto_run_registers_ignore_compute (ow : Z) (st : Presto.HyperLogLogPresto) (os : list op) :
  Presto.n_leading_bits_ (PrestoRun.run ow st os) = Presto.n_leading_bits_ (PrestoRun.run_adds ow st (adds_of os)) /\
  Presto.dense_bucket_ (PrestoRun.run ow st os) = Presto.dense_bucket_ (PrestoRun.run_adds ow st (adds_of os)) /\
  Presto.overflow_bucket_ (PrestoRun.run ow st os) = Presto.overflow_bucket_ (PrestoRun.run_adds ow st (adds_of os)).
Proof. apply Presto_run_adds_of; reflexivity. Qed.

Lemma Dense_run_reg (n : Z) (st0 : Dense.HyperLogLog) (os : list op) (i : nat) :
  Dense.ctor n = Some st0 ->
  Dense.n_bits_ (DenseRun.run st0 os) = Dense.n_bits_ st0 /\
  DenseRun.reg (DenseRun.run st0 os) i =
    max_rank (Dense.ComputeBucket (Dense.n_bits_ st0)) (Dense.PositionOfLeftmostOne (Dense.n_bits_ st0))
      (adds_of os) i.
Proof.
  intros Hc. destruct (Dense_ctor_inv n st0 Hc) as (Hp & _ & Hb & _).
  destruct (Dense_run_adds_of os st0 st0 eq_refl eq_refl) as [Ep Eb].
  split; [rewrite Ep; apply Dense_run_adds_n_bits |].
  unfold DenseRun.reg at 1. rewrite Eb. fold (DenseRun.reg (DenseRun.run_adds st0 (adds_of os)) i).
  rewrite Dense_run_adds_reg by (try lia; rewrite Hb; apply repeat_length).
  unfold DenseRun.reg. rewrite Hb, repeat_reg_0. reflexivity.
Qed.

Lemma Presto_run_reg (ow n : Z) (st0 : Presto.HyperLogLogPresto) (os : list op) (i : nat) :
  3 <= ow -> Presto.ctor n = Some st0 ->
  Presto.n_leading_bits_ (PrestoRun.run ow st0 os) = Presto.n_leading_bits_ st0 /\
  PrestoRun.reg (PrestoRun.run ow st0 os) i =
    max_rank (Presto.ComputeBucketIndex (Presto.n_leading_bits_ st0))
      (Presto.PositionOfRightMostOne (Presto.n_leading_bits_ st0)) (adds_of os) i.
Proof.
  intros Hw Hc. destruct (Presto_run_adds_of ow os st0 st0 eq_refl eq_refl eq_refl) as (Ep & Ed & Eo).
  split; [rewrite Ep; apply Presto_run_adds_n_leading_bits |].
  unfold PrestoRun.reg, Presto.GetBucketValue. rewrite Ed, Eo.
  fold (Presto.GetBucketValue (PrestoRun.run_adds ow st0 (adds_of os)) (Z.of_nat i)).
  fold (PrestoRun.reg (PrestoRun.run_adds ow st0 (adds_of os)) i).
  rewrite (Presto_run_adds_reg ow _ i Hw st0 (Presto_ctor_inv_holds n st0 Hc)).
  rewrite (Presto_ctor_reg_0 n st0 i Hc). reflexivity.
Qed.

(** X8: from construction, along any sequence of [AddElem] and
    [ComputeCardinality] calls, every dense register holds a value between
    0 and [64 - n_bits_], the largest rank [PositionOfLeftmostOne] returns. *)
Theorem Dense_registers_bounded (n : Z) (st0 : Dense.HyperLogLog) (os : list op) (i : nat) :
  Dense.ctor n = Some st0 ->
  0 <= DenseRun.reg (DenseRun.run st0 os) i <= 64 - Dense.n_bits_ st0.
Proof.
  intros Hc. destruct (Dense_ctor_inv n st0 Hc) as (Hp & _).
  rewrite (proj2 (Dense_run_reg n st0 os i Hc)). unfold max_rank.
  apply fold_rank_step_bounds; [intros h; apply plo_bounds; lia | lia].
Qed.

(** X9: from construction, along any sequence of [AddElem] and
    [ComputeCardinality] calls, every compact register [GetBucketValue(i)]
    holds a value between 0 and [64 - n_leading_bits_], the largest rank
    [PositionOfRightMostOne] returns (overflow width [ow >= 3]). *)
Theorem Presto_registers_bounded (ow n : Z) (st0 : Presto.HyperLogLogPresto) (os : list op) (i : nat) :
  3 <= ow -> Presto.ctor n = Some st0 ->
  0 <= PrestoRun.reg (PrestoRun.run ow st0 os) i <= 64 - Presto.n_leading_bits_ st0.
Proof.
  intros Hw Hc. destruct (Presto_ctor_inv n st0 Hc) as (Hp & _).
  rewrite (proj2 (Presto_run_reg ow n st0 os i Hw Hc)). unfold max_rank.
  apply fold_rank_step_bounds; [intros h; apply rmo_bounds; lia | lia].
Qed.

Lemma Presto_ComputeCardinality_repr (st : Presto.HyperLogLogPresto) :
  presto_repr st -> presto_repr (Presto.ComputeCardinality st).
Proof.
  intros Hrep. unfold Presto.ComputeCardinality. destruct (_ <=? _); [exact Hrep |].
  destruct st. exact Hrep.
Qed.

(** X10: from construction, along any sequence of [AddElem] and
    [ComputeCardinality] calls, the compact estimator splits each register
    value [v] into the dense field [v & 0xF] and an overflow entry [v >> 4]
    that exists exactly when [v >= 16], and keeps no overflow entry beyond
    the last register (overflow width [ow >= 3]). *)
Theorem Presto_run_repr (ow n : Z) (st0 : Presto.HyperLogLogPresto) (os : list op) :
  3 <= ow -> Presto.ctor n = Some st0 -> presto_repr (PrestoRun.run ow st0 os).
Proof.
  intros Hw Hc. pose proof (Presto_ctor_inv_holds n st0 Hc) as Hinv.
  pose proof (presto_repr_ctor n st0 Hc) as Hrep. clear Hc.
  unfold PrestoRun.run. revert st0 Hinv Hrep.
  induction os as [| [h |] os IH]; intros st Hinv Hrep; simpl; [exact Hrep | |].
  - apply IH; [apply (Presto_AddElem_step ow st h Hw Hinv) | apply presto_repr_AddElem; assumption].
  - apply IH; [apply Presto_ComputeCardinality_inv; exact Hinv | apply Presto_ComputeCardinality_repr; exact Hrep].
Qed.

(** X11: from construction, along any call sequence, adding the same hash
    twice in a row to the compact estimator has the effect of adding it
    once (overflow width [ow >= 3]). *)
Theorem Presto_AddElem_idempotent (ow n : Z) (st0 : Presto.HyperLogLogPresto) (os : list op) (h : Z) :
  3 <= ow -> Presto.ctor n = Some st0 ->
  Presto.AddElem ow (Presto.AddElem ow (PrestoRun.run ow st0 os) h) h = Presto.AddElem ow (PrestoRun.run ow st0 os) h.
Proof.
  intros Hw Hc. pose proof (Presto_run_inv ow os Hw st0 (Presto_ctor_inv_holds n st0 Hc)) as Hinv.
  set (st := PrestoRun.run ow st0 os) in *. pose proof Hinv as (Hp & _).
  unfold Presto.AddElem at 2 3.
  set (idx := Presto.ComputeBucketIndex (Presto.n_leading_bits_ st) h).
  set (rmo := Presto.PositionOfRightMostOne (Presto.n_leading_bits_ st) h).
  pose proof (idx_bounds (Presto.n_leading_bits_ st) h ltac:(lia)) as Hidx.
  pose proof (rmo_bounds (Presto.n_leading_bits_ st) h ltac:(lia)) as Hrmo.
  fold idx in Hidx. fold rmo in Hrmo.
  destruct (Z.ltb_spec (Presto.GetBucketValue st idx) rmo) as [Hlt | Hge].
  - destruct (Set_rank ow st idx rmo Hw Hinv Hidx ltac:(lia) Hlt) as [Hget _].
    unfold Presto.AddElem. rewrite (proj1 (proj2 (proj2 (Set_fields ow st idx rmo)))).
    fold idx rmo. rewrite Hget, Z.ltb_irrefl. reflexivity.
  - unfold Presto.AddElem. fold idx rmo.
    destruct (Z.ltb_spec (Presto.GetBucketValue st idx) rmo); [lia | reflexivity].
Qed.

(** X12: from construction, along any call sequence, [AddElem] of a hash
    whose low [64 - n_bits_] bits are all zero ([PositionOfLeftmostOne]
    finds no one bit and returns 0) leaves the dense estimator unchanged. *)
Theorem Dense_AddElem_zero_tail (n : Z) (st0 : Dense.HyperLogLog) (os : list op) (h : Z) :
  Dense.ctor n = Some st0 -> h mod 2 ^ (64 - Dense.n_bits_ st0) = 0 ->
  Dense.AddElem (DenseRun.run st0 os) h = DenseRun.run st0 os.
Proof.
  intros Hc Hh. destruct (Dense_ctor_inv n st0 Hc) as (Hp & _).
  destruct (Dense_run_reg n st0 os 0 Hc) as [Ep _].
  unfold Dense.AddElem. rewrite Ep.
  assert (Hl : Dense.PositionOfLeftmostOne (Dense.n_bits_ st0) h = 0).
  { unfold Dense.PositionOfLeftmostOne.
    destruct (plo_loop_spec (Dense.n_bits_ st0) h (Z.to_nat (64 - Dense.n_bits_ st0)) (Dense.n_bits_ st0)
                ltac:(lia) ltac:(lia)) as [[_ E] | (Hr & Hb & _)]; [exact E |].
    exfalso. rewrite <- Z.mod_pow2_bits_low with (n := 64 - Dense.n_bits_ st0) in Hb by lia.
    rewrite Hh, Z.testbit_0_l in Hb. discriminate. }
  rewrite Hl.
  set (k := Z.to_nat (Dense.ComputeBucket (Dense.n_bits_ st0) h)).
  assert (Hb : 0 <= DenseRun.reg (DenseRun.run st0 os) k <= 64 - Dense.n_bits_ st0).
  { rewrite (proj2 (Dense_run_reg n st0 os k Hc)). unfold max_rank.
    apply fold_rank_step_bounds; [intros h'; apply plo_bounds; lia | lia]. }
  unfold DenseRun.reg in Hb. rewrite (proj2 (Z.leb_le 0 _) (proj1 Hb)). reflexivity.
Qed.

(** X13: from construction, along any call sequence, [AddElem] of an odd
    hash ([PositionOfRightMostOne] finds bit 0 set and returns 0) leaves the
    compact estimator unchanged (overflow width [ow >= 3]). *)
Theorem Presto_AddElem_odd_hash (ow n : Z) (st0 : Presto.HyperLogLogPresto) (os : list op) (h : Z) :
  3 <= ow -> Presto.ctor n = Some st0 -> Z.odd h = true ->
  Presto.AddElem ow (PrestoRun.run ow st0 os) h = PrestoRun.run ow st0 os.
Proof.
  intros Hw Hc Hh. pose proof (Presto_run_inv ow os Hw st0 (Presto_ctor_inv_holds n st0 Hc)) as Hinv.
  set (st := PrestoRun.run ow st0 os) in *. pose proof Hinv as (Hp & _ & _ & _ & Hg).
  unfold Presto.AddElem.
  assert (Hr : Presto.PositionOfRightMostOne (Presto.n_leading_bits_ st) h = 0).
  { unfold Presto.PositionOfRightMostOne.
    replace (Z.to_nat (64 - Presto.n_leading_bits_ st)) with (S (Z.to_nat (63 - Presto.n_leading_bits_ st))) by lia.
    simpl. rewrite Hh. reflexivity. }
  rewrite Hr. destruct (Z.ltb_spec (Presto.GetBucketValue st (Presto.ComputeBucketIndex (Presto.n_leading_bits_ st) h)) 0);
    [specialize (Hg (Presto.ComputeBucketIndex (Presto.n_leading_bits_ st) h)); lia | reflexivity].
Qed.

End RunProofs.

Lemma Dense_registers_bounded_witness :
  Dense.ctor 1 = Some (Dense.mkHLL 1 [0; 0] 0) /\
  0 <= DenseRun.reg (DenseRun.run (Dense.mkHLL 1 [0; 0] 0) [OpAdd (2 ^ 40); OpCompute; OpAdd 5]) 0 <= 64 - 1.
Proof.
  split; [reflexivity |].
  exact (Dense_registers_bounded 1 (Dense.mkHLL 1 [0; 0] 0) [OpAdd (2 ^ 40); OpCompute; OpAdd 5] 0 eq_refl).
Defined.

Lemma Presto_registers_bounded_witness :
  3 <= 3 /\ Presto.ctor 1 = Some (Presto.mkP 1 [0; 0] empty 0) /\
  0 <= PrestoRun.reg (PrestoRun.run 3 (Presto.mkP 1 [0; 0] empty 0) [OpAdd (2 ^ 40); OpCompute; OpAdd 5]) 0
    <= 64 - 1.
Proof.
  split; [lia |]. split; [reflexivity |].
  exact (Presto_registers_bounded 3 1 (Presto.mkP 1 [0; 0] empty 0) [OpAdd (2 ^ 40); OpCompute; OpAdd 5] 0
           ltac:(lia) eq_refl).
Defined.

Lemma Presto_run_repr_witness :
  3 <= 3 /\ Presto.ctor 1 = Some (Presto.mkP 1 [0; 0] empty 0) /\
  presto_repr (PrestoRun.run 3 (Presto.mkP 1 [0; 0] empty 0) [OpAdd (2 ^ 40); OpCompute; OpAdd (2 ^ 63 + 2 ^ 20)]).
Proof.
  split; [lia |]. split; [reflexivity |].
  exact (Presto_run_repr 3 1 (Presto.mkP 1 [0; 0] empty 0) [OpAdd (2 ^ 40); OpCompute; OpAdd (2 ^ 63 + 2 ^ 20)]
           ltac:(lia) eq_refl).
Defined.

Lemma Presto_AddElem_idempotent_witness :
  3 <= 3 /\ Presto.ctor 1 = Some (Presto.mkP 1 [0; 0] empty 0) /\
  Presto.AddElem 3 (Presto.AddElem 3 (PrestoRun.run 3 (Presto.mkP 1 [0; 0] empty 0) [OpAdd 8; OpCompute]) (2 ^ 40))
    (2 ^ 40) =
  Presto.AddElem 3 (PrestoRun.run 3 (Presto.mkP 1 [0; 0] empty 0) [OpAdd 8; OpCompute]) (2 ^ 40).
Proof.
  split; [lia |]. split; [reflexivity |].
  exact (Presto_AddElem_idempotent 3 1 (Presto.mkP 1 [0; 0] empty 0) [OpAdd 8; OpCompute] (2 ^ 40)
           ltac:(lia) eq_refl).
Defined.

Lemma Dense_AddElem_zero_tail_witness :
  Dense.ctor 1 = Some (Dense.mkHLL 1 [0; 0] 0) /\ 2 ^ 63 mod 2 ^ (64 - 1) = 0 /\
  Dense.AddElem (DenseRun.run (Dense.mkHLL 1 [0; 0] 0) [OpAdd (2 ^ 62); OpCompute]) (2 ^ 63) =
  DenseRun.run (Dense.mkHLL 1 [0; 0] 0) [OpAdd (2 ^ 62); OpCompute].
Proof.
  split; [reflexivity |]. split; [reflexivity |].
  exact (Dense_AddElem_zero_tail 1 (Dense.mkHLL 1 [0; 0] 0) [OpAdd (2 ^ 62); OpCompute] (2 ^ 63)
           eq_refl eq_refl).
Defined.

Lemma Presto_AddElem_odd_hash_witness :
  3 <= 3 /\ Presto.ctor 1 = Some (Presto.mkP 1 [0; 0] empty 0) /\ Z.odd (2 ^ 63 + 1) = true /\
  Presto.AddElem 3 (PrestoRun.run 3 (Presto.mkP 1 [0; 0] empty 0) [OpAdd (2 ^ 40); OpCompute]) (2 ^ 63 + 1) =
  PrestoRun.run 3 (Presto.mkP 1 [0; 0] empty 0) [OpAdd (2 ^ 40); OpCompute].
Proof.
  split; [lia |]. split; [reflexivity |]. split; [reflexivity |].
  exact (Presto_AddElem_odd_hash 3 1 (Presto.mkP 1 [0; 0] empty 0) [OpAdd (2 ^ 40); OpCompute] (2 ^ 63 + 1)
           ltac:(lia) eq_refl eq_refl).
Defined.
